(** * Python_Exercises: volume under z = x² + y² and the weekly temperature report

    A shallow embedding of the numeric core of the two scripts

    - [Volume surface calculator/main.py]: [surface_function],
      [analytical_solution], [numerical_integration_riemann],
      [monte_carlo_integration] and the convergence table of [main];
    - [Weekly_Temp_Graph/main.py]: the temperature series and its
      summary statistics.

    Python's [float] is interpreted twice, through one interface
    ([PyFloat]): as exact rationals ([Q], the "real" numbers of the
    specification) and as IEEE 754 binary64 ([spec_float] with 53 bits of
    precision), so that every function is written once, from the source,
    and read in both arithmetics. *)

From Stdlib Require Import ZArith QArith Qabs Lqa List Bool Lia String Ascii.
From Stdlib Require Import DecimalString.
From Stdlib Require Import Floats.SpecFloat.
Import ListNotations.

Set Implicit Arguments.

(** ** Python exceptions and the error monad *)

Inductive PyError : Type :=
| ZeroDivisionError
| OverflowError
| ValueError.

Inductive result (A : Type) : Type :=
| Ok (a : A)
| Raise (e : PyError).

Arguments Ok {A} a.
Arguments Raise {A} e.

Definition bind {A B : Type} (c : result A) (k : A -> result B) : result B :=
  match c with
  | Ok a => k a
  | Raise e => Raise e
  end.

Declare Scope py_scope.
Delimit Scope py_scope with py.
Notation "x <- c ;; k" := (bind c (fun x => k))
  (at level 61, c at next level, right associativity) : py_scope.
Local Open Scope py_scope.

(** A [for] statement whose body may raise: the loop state is threaded
    through the iterations in order and the first exception ends the loop. *)
Fixpoint for_ {A S : Type} (l : list A) (body : A -> S -> result S) (s : S)
  : result S :=
  match l with
  | [] => Ok s
  | a :: l' => s' <- body a s ;; for_ l' body s'
  end.

(** [range(n)]: 0, 1, ..., n-1, empty when [n <= 0]. *)
Definition range (n : Z) : list Z :=
  map Z.of_nat (seq 0 (Z.to_nat n)).

(** ** The arithmetic of Python floats, as an interface *)

(** What a float denotes: a signed finite magnitude, an infinity or NaN. *)
Inductive fvalue : Type :=
| Finite (negative : bool) (magnitude : Q)
| Infinite (negative : bool)
| NotANumber.

(** The rational a finite float stands for. *)
Definition signed_value (v : fvalue) : option Q :=
  match v with
  | Finite s q => Some (if s then - q else q)
  | _ => None
  end.

Class PyFloat (F : Type) : Type := {
  (** [float(n)] for an [int]; raises [OverflowError] when [n] is too large *)
  float_of_int : Z -> result F;
  (** the literals [0.5] and [1.0] *)
  half : F;
  one : F;
  fadd : F -> F -> F;
  fsub : F -> F -> F;
  fmul : F -> F -> F;
  (** [a / b]; raises [ZeroDivisionError] when [b] is zero *)
  fdiv : F -> F -> result F;
  (** [x ** 2]; raises [OverflowError] when the square is out of range *)
  fsquare : F -> result F;
  fabs : F -> F;
  (** [a < b] *)
  fltb : F -> F -> bool;
  (** the value denoted, which is what [format] prints *)
  classify : F -> fvalue
}.

(** A Python number: the accumulator of the Riemann loop starts as the
    [int] 0 and becomes a [float] at the first [+=]. *)
Inductive pynum (F : Type) : Type :=
| PyInt (z : Z)
| PyFlt (f : F).

Arguments PyInt {F} z.
Arguments PyFlt {F} f.

(** Each element of a list with its successor. *)
Definition consecutive_pairs {A : Type} (l : list A) : list (A * A) :=
  combine l (tl l).

(** ** Builtins on lists of [int]s and number formatting *)

(** [temperatures = [20, 22, 19, 23, 21, 24, 20]] *)
Definition temperatures : list Z := [20; 22; 19; 23; 21; 24; 20]%Z.

(** [sum], [len], [max] and [min]; [max] and [min] raise [ValueError] on
    an empty list. *)
Definition py_sum (l : list Z) : Z := fold_left Z.add l 0%Z.

Definition py_len (l : list Z) : Z := Z.of_nat (List.length l).

Definition py_max (l : list Z) : result Z :=
  match l with
  | [] => Raise ValueError
  | a :: l' => Ok (fold_left Z.max l' a)
  end.

Definition py_min (l : list Z) : result Z :=
  match l with
  | [] => Raise ValueError
  | a :: l' => Ok (fold_left Z.min l' a)
  end.

(** [str(n)] and [f"{n}"] on an [int]. *)
Definition str_int (z : Z) : string :=
  NilZero.string_of_int (Z.to_int z).

(** The integer nearest to a rational, ties to the even one. *)
Definition round_half_even (q : Q) : Z :=
  let n := Qnum q in
  let d := Zpos (Qden q) in
  let fl := (n / d)%Z in
  match (2 * (n mod d) ?= d)%Z with
  | Lt => fl
  | Gt => (fl + 1)%Z
  | Eq => if Z.even fl then fl else (fl + 1)%Z
  end.

(** The [.1f] format: the exact value rounded to one decimal, ties to
    even, behind the sign. *)
Definition format_1f_value (v : fvalue) : string :=
  match v with
  | Finite s q =>
      let t := round_half_even (q * 10) in
      (if s then "-" else "") ++ str_int (t / 10) ++ "." ++ str_int (t mod 10)
  | Infinite s => if s then "-inf" else "inf"
  | NotANumber => "nan"
  end%string.

Section Generic.
Context {F : Type} `{PyFloat F}.

(** The implicit conversion of a number that meets a [float] operand. *)
Definition to_float (v : pynum F) : result F :=
  match v with
  | PyInt z => float_of_int z
  | PyFlt f => Ok f
  end.

(** [a / b] on two [int]s (true division). Python tests the divisor
    first; the quotient computed here through [float(a) / float(b)] is
    the correctly rounded one as long as both operands are at most 2^53
    in magnitude, which covers the constants of these scripts. Beyond
    that Python still rounds the exact quotient once, where this reading
    in binary64 rounds twice, or raises [OverflowError] on an operand
    that is no double. *)
Definition int_truediv (a b : Z) : result F :=
  if (b =? 0)%Z then Raise ZeroDivisionError
  else a' <- float_of_int a ;; b' <- float_of_int b ;; fdiv a' b'.

(** *** Volume surface calculator/main.py *)

(** [def surface_function(x, y): return x ** 2 + y ** 2] *)
Definition surface_function (x y : F) : result F :=
  x2 <- fsquare x ;;
  y2 <- fsquare y ;;
  Ok (fadd x2 y2).

(** [def analytical_solution(): return 2 / 3] *)
Definition analytical_solution : result F :=
  int_truediv 2 3.

(** Line 33, [dx = dy = 1.0 / n]: the cell width. *)
Definition riemann_cell_width (n : Z) : result F :=
  n' <- float_of_int n ;;
  fdiv one n'.

(** Lines 38-40, the body of the inner loop:
    [x = (i + 0.5) * dx; y = (j + 0.5) * dy;
     volume += surface_function(x, y) * dx * dy]. *)
Definition riemann_body (dx dy : F) (i j : Z) (volume : pynum F)
  : result (pynum F) :=
  i' <- float_of_int i ;;
  let x := fmul (fadd i' half) dx in
  j' <- float_of_int j ;;
  let y := fmul (fadd j' half) dy in
  z <- surface_function x y ;;
  let term := fmul (fmul z dx) dy in
  v <- to_float volume ;;
  Ok (PyFlt (fadd v term)).

(** Lines 34-42: [volume = 0], the two nested loops over [range(n)] and
    the returned accumulator. *)
Definition riemann_loops (n : Z) (dx dy : F) : result (pynum F) :=
  for_ (range n)
    (fun i volume => for_ (range n) (fun j volume => riemann_body dx dy i j volume) volume)
    (PyInt 0).

(** [def numerical_integration_riemann(n=100)] *)
Definition numerical_integration_riemann (n : Z) : result (pynum F) :=
  dx <- riemann_cell_width n ;;
  let dy := dx in
  riemann_loops n dx dy.

(** [abs(vol - analytical_vol)], as [main] computes it for the report
    (lines 115 and 143). *)
Definition abs_difference (vol : pynum F) (analytical_vol : F) : result F :=
  v <- to_float vol ;;
  Ok (fabs (fsub v analytical_vol)).

(** One row of the convergence table (lines 142-143): the volume on an
    [n]×[n] grid and its error against the analytical value. *)
Definition convergence_row (analytical_vol : F) (n : Z) : result (pynum F * F) :=
  vol <- numerical_integration_riemann n ;;
  error <- abs_difference vol analytical_vol ;;
  Ok (vol, error).

(** [grid_sizes = [10, 25, 50, 100, 200]] *)
Definition grid_sizes : list Z := [10; 25; 50; 100; 200]%Z.

(** Lines 140-144: the rows of the table, in the order of [grid_sizes],
    against the analytical value [main] holds since line 98. *)
Definition riemann_convergence (analytical_vol : F)
  : result (list (Z * pynum F * F)) :=
  for_ grid_sizes
    (fun n rows =>
       row <- convergence_row analytical_vol n ;;
       Ok (rows ++ [(n, fst row, snd row)]))
    [].

(** The error column alone, for one grid size. *)
Definition riemann_error (n : Z) : result F :=
  analytical_vol <- analytical_solution ;;
  row <- convergence_row analytical_vol n ;;
  Ok (snd row).

(** The distance of the returned volume, taken at its exact value, from
    the rational 2/3. *)
Definition exact_error (n : Z) : option Q :=
  match vol <- numerical_integration_riemann n ;; to_float vol with
  | Ok f =>
      match signed_value (classify f) with
      | Some q => Some (Qabs (q - (2 # 3)))
      | None => None
      end
  | Raise _ => None
  end.

(** The error on the [m]×[m] grid is strictly below the error on the
    [n]×[n] grid, both as [main] reports it and at the exact values. *)
Definition error_shrinks (n m : Z) : Prop :=
  (exists en em : F,
      riemann_error n = Ok en /\ riemann_error m = Ok em /\ fltb em en = true)
  /\ (exists en em : Q,
         exact_error n = Some en /\ exact_error m = Some em /\ em < en).

(** *** Weekly_Temp_Graph/main.py *)

(** [sum(temperatures)/len(temperatures)] *)
Definition average (l : list Z) : result F :=
  int_truediv (py_sum l) (py_len l).

(** [max(temperatures) - min(temperatures)] *)
Definition temperature_range (l : list Z) : result Z :=
  hi <- py_max l ;;
  lo <- py_min l ;;
  Ok (hi - lo)%Z.

(** [f"{x:.1f}"] on a float. *)
Definition format_1f (x : F) : string :=
  format_1f_value (classify x).

(** Lines 30-34: the lines printed by the summary block. *)
Definition weekly_summary : result (list string) :=
  avg <- average temperatures ;;
  hi <- py_max temperatures ;;
  lo <- py_min temperatures ;;
  rng <- temperature_range temperatures ;;
  Ok [ "Weekly Temperature Summary:";
       "Average temperature: " ++ format_1f avg ++ "°C";
       "Highest temperature: " ++ str_int hi ++ "°C";
       "Lowest temperature: " ++ str_int lo ++ "°C";
       "Temperature range: " ++ str_int rng ++ "°C" ]%string.

End Generic.

(** ** Exact rational arithmetic *)

#[export] Instance PyFloat_Q : PyFloat Q := {|
  float_of_int := fun z => Ok (inject_Z z);
  half := 1 # 2;
  one := 1;
  fadd := Qplus;
  fsub := Qminus;
  fmul := Qmult;
  fdiv := fun a b => if Qeq_bool b 0 then Raise ZeroDivisionError else Ok (a / b);
  fsquare := fun x => Ok (x ^ 2);
  fabs := Qabs;
  fltb := fun a b => negb (Qle_bool b a);
  classify := fun q => Finite (negb (Qle_bool 0 q)) (Qabs q)
|}.

(** ** IEEE 754 binary64 *)

Module B64.

Definition prec : Z := 53.
Definition emax : Z := 1024.

Definition is_zero (x : spec_float) : bool :=
  match x with
  | S754_zero _ => true
  | _ => false
  end.

Definition is_infinity (x : spec_float) : bool :=
  match x with
  | S754_infinity _ => true
  | _ => false
  end.

(** [float(n)]: the nearest double, ties to even; an [int] beyond the
    largest double raises [OverflowError]. *)
Definition of_int (z : Z) : result spec_float :=
  let f := binary_normalize prec emax z 0 false in
  if is_infinity f then Raise OverflowError else Ok f.

(** [a / b] on floats: a zero divisor raises [ZeroDivisionError]. *)
Definition div (a b : spec_float) : result spec_float :=
  if is_zero b then Raise ZeroDivisionError else Ok (SFdiv prec emax a b).

(** [x ** 2], taken as the correctly rounded square; a finite [x] whose
    square overflows raises [OverflowError]. CPython hands [x ** 2] to the
    C library's [pow], which at some arguments returns the double next to
    the correctly rounded one; signs and exceptions are the same. *)
Definition square (x : spec_float) : result spec_float :=
  let r := SFmul prec emax x x in
  if is_infinity r && negb (is_infinity x) then Raise OverflowError else Ok r.

(** The exact magnitude [m * 2^e] of a finite double. *)
Definition magnitude (m : positive) (e : Z) : Q :=
  match e with
  | Zneg p => Zpos m # (2 ^ p)
  | _ => inject_Z (Zpos m * 2 ^ e)
  end.

Definition value (x : spec_float) : fvalue :=
  match x with
  | S754_zero s => Finite s 0
  | S754_finite s m e => Finite s (magnitude m e)
  | S754_infinity s => Infinite s
  | S754_nan => NotANumber
  end.

End B64.

#[export] Instance PyFloat_B64 : PyFloat spec_float := {|
  float_of_int := B64.of_int;
  half := S754_finite false 4503599627370496 (-53);
  one := S754_finite false 4503599627370496 (-52);
  fadd := SFadd B64.prec B64.emax;
  fsub := SFsub B64.prec B64.emax;
  fmul := SFmul B64.prec B64.emax;
  fdiv := B64.div;
  fsquare := B64.square;
  fabs := SFabs;
  fltb := SFltb;
  classify := B64.value
|}.


(** ** The ambient random generator and the Monte Carlo estimate *)

(** NumPy's global generator: the sequence of values that successive
    calls of [random_sample] will return, and how many were consumed.
    Every sequence is a possible run. *)
Record rng_state : Type := {
  samples : nat -> Q;
  consumed : nat
}.

(** Every sample lies in the unit interval ([random_sample] draws from
    [[0, 1)]; nothing below needs the upper end to be excluded). *)
Definition unit_samples (g : rng_state) : Prop :=
  forall k : nat, 0 <= samples g k /\ samples g k <= 1.

(** Code that may read the generator and may raise. *)
Definition Run (A : Type) : Type := rng_state -> result A * rng_state.

Definition run_ret {A : Type} (a : A) : Run A :=
  fun g => (Ok a, g).

Definition run_bind {A B : Type} (c : Run A) (k : A -> Run B) : Run B :=
  fun g =>
    match c g with
    | (Ok a, g') => k a g'
    | (Raise e, g') => (Raise e, g')
    end.

(** A call of a function that does not touch the generator. *)
Definition call {A : Type} (c : result A) : Run A :=
  fun g => (c, g).

Notation "x <~ c ;; k" := (run_bind c (fun x => k))
  (at level 61, c at next level, right associativity) : py_scope.

(** [np.random.uniform(low, high, size)]: [size] fresh samples scaled to
    [[low, high)]; a negative [size] raises [ValueError]. *)
Definition np_random_uniform (low high : Q) (size : Z) : Run (list Q) :=
  fun g =>
    if (size <? 0)%Z then (Raise ValueError, g)
    else
      let n := Z.to_nat size in
      (Ok (map (fun k => low + (high - low) * samples g (consumed g + k)%nat) (seq 0 n)),
       {| samples := samples g; consumed := (consumed g + n)%nat |}).

(** A NumPy scalar in exact arithmetic: a value, or the NaN that
    [np.mean] gives for an empty array. *)
Inductive np_float : Type :=
| np_nan
| np_val (q : Q).

(** The sum of the elements of an array. *)
Definition Qsum (l : list Q) : Q := fold_right Qplus 0 l.

(** [surface_function] applied to two arrays: [**] and [+] act
    elementwise. *)
Definition np_surface_function (xs ys : list Q) : list Q :=
  map (fun p => fst p ^ 2 + snd p ^ 2) (combine xs ys).

(** [np.mean] *)
Definition np_mean (a : list Q) : np_float :=
  match a with
  | [] => np_nan
  | _ => np_val (Qsum a / inject_Z (Z.of_nat (List.length a)))
  end.

(** [v * 1.0] on a NumPy scalar *)
Definition np_times (v : np_float) (c : Q) : np_float :=
  match v with
  | np_nan => np_nan
  | np_val q => np_val (q * c)
  end.

(** [def monte_carlo_integration(n_points=100000)], in exact arithmetic
    (the order in which [np.mean] adds doubles is left to NumPy, so only
    this reading is given). *)
Definition monte_carlo_integration (n_points : Z) : Run np_float :=
  x_random <~ np_random_uniform 0 1 n_points ;;
  y_random <~ np_random_uniform 0 1 n_points ;;
  let z_values := np_surface_function x_random y_random in
  let volume := np_times (np_mean z_values) 1 in
  run_ret volume.

(** ** The estimates of [main] *)

Record estimates (F : Type) : Type := {
  analytical_vol : F;
  scipy_vol : F;
  scipy_error : F;
  riemann_vol : pynum F;
  mc_vol : np_float;
  convergence : list (Z * pynum F * F)
}.

Section Main.
Context {F : Type} `{PyFloat F}.

(** What [integrate.dblquad(surface_function, 0, 1, 0, 1)] returns: the
    integrator belongs to SciPy and nothing is assumed about it. *)
Variable dblquad_outcome : result (F * F).

(** [def numerical_integration_scipy()] *)
Definition numerical_integration_scipy : result (F * F) :=
  p <- dblquad_outcome ;;
  let result := fst p in
  let error := snd p in
  Ok (result, error).

(** The values [main] computes, in the order it computes them
    (lines 98, 104, 112, 119 and 140-144); printing and plotting are
    left out. *)
Definition main_estimates : Run (estimates F) :=
  analytical_vol <~ call analytical_solution ;;
  sc <~ call numerical_integration_scipy ;;
  riemann_vol <~ call (numerical_integration_riemann 100) ;;
  mc_vol <~ monte_carlo_integration 100000 ;;
  rows <~ call (riemann_convergence analytical_vol) ;;
  run_ret {| analytical_vol := analytical_vol;
             scipy_vol := fst sc;
             scipy_error := snd sc;
             riemann_vol := riemann_vol;
             mc_vol := mc_vol;
             convergence := rows |}.

End Main.

(** ** The midpoint rule, as the specification words it *)

(** The integrand [x² + y²] of the specification. *)
Definition spec_surface (x y : Q) : Q := x * x + y * y.

(** The cells of the [n]×[n] grid, by their indices. *)
Definition spec_cells (n : Z) : list (Z * Z) :=
  list_prod (range n) (range n).

(** The midpoint [((i+0.5)/n, (j+0.5)/n)] of cell [(i, j)]. *)
Definition spec_midpoint (n : Z) (c : Z * Z) : Q * Q :=
  ((inject_Z (fst c) + (1 # 2)) / inject_Z n,
   (inject_Z (snd c) + (1 # 2)) / inject_Z n).

(** The cell area [1/n²]. *)
Definition spec_cell_area (n : Z) : Q := 1 / (inject_Z n * inject_Z n).

(** The sum of [f(midpoint) * cell_area] over all cells. *)
Definition midpoint_rule_spec (n : Z) : Q :=
  Qsum (map (fun c => spec_surface (fst (spec_midpoint n c)) (snd (spec_midpoint n c))
                      * spec_cell_area n)
            (spec_cells n)).

(** The sample mean of [x² + y²] over [n] points, as the specification
    words it. *)
Definition sample_mean_spec (pts : list (Q * Q)) : Q :=
  Qsum (map (fun p => spec_surface (fst p) (snd p)) pts)
  / inject_Z (Z.of_nat (List.length pts)).

(** The points a call of [monte_carlo_integration] draws: the abscissas
    first, then the ordinates. *)
Definition drawn_points (g : rng_state) (n : nat) : list (Q * Q) :=
  map (fun k => (samples g (consumed g + k)%nat, samples g (consumed g + n + k)%nat))
      (seq 0 n).

(** The value of a Python number. *)
Definition num_val (v : pynum Q) : Q :=
  match v with
  | PyInt z => inject_Z z
  | PyFlt q => q
  end.

(** The term one pass of the inner loop adds to [volume], in exact
    arithmetic. *)
Definition riemann_term (dx dy : Q) (i j : Z) : Q :=
  (((inject_Z i + (1 # 2)) * dx) ^ 2 + ((inject_Z j + (1 # 2)) * dy) ^ 2) * dx * dy.

(** The accumulator after a run of [+=] with the given terms. *)
Definition accumulate (s : pynum Q) (ts : list Q) : pynum Q :=
  fold_left (fun v t => PyFlt (num_val v + t)) ts s.

(** ** The mesh of [visualize_surface] *)

(** [y[-1] = v] on a nonempty array. *)
Definition set_last (y : list Q) (v : Q) : list Q :=
  removelast y ++ [v].

(** [np.linspace(start, stop, num)] in exact arithmetic: [num] evenly
    spaced samples with both ends included; a negative [num] raises
    [ValueError]. The steps follow NumPy's: [arange(0, num)] scaled by the
    step (or divided and scaled when the step is zero), shifted by
    [start], and the last element set to [stop]. *)
Definition np_linspace (start stop : Q) (num : Z) : result (list Q) :=
  if (num <? 0)%Z then Raise ValueError
  else
    let div := (num - 1)%Z in
    let delta := stop - start in
    let y := map (fun i => inject_Z (Z.of_nat i)) (seq 0 (Z.to_nat num)) in
    let y :=
      if (0 <? div)%Z then
        let step := delta / inject_Z div in
        if Qeq_bool step 0
        then map (fun v => v / inject_Z div * delta) y
        else map (fun v => v * step) y
      else map (fun v => v * delta) y in
    let y := map (fun v => v + start) y in
    Ok (if (1 <? num)%Z then set_last y stop else y).

(** [np.meshgrid(x, y)]: the matrices [X[i][j] = x[j]] and
    [Y[i][j] = y[i]], with one row per element of [y]. *)
Definition np_meshgrid (x y : list Q) : list (list Q) * list (list Q) :=
  (map (fun _ => x) y, map (fun yi => map (fun _ => yi) x) y).

(** [surface_function] applied to two matrices: elementwise, row by row. *)
Definition np_surface_function_2d (X Y : list (list Q)) : list (list Q) :=
  map (fun rows => np_surface_function (fst rows) (snd rows)) (combine X Y).

(** Lines 63-66 of [visualize_surface]: the matrices handed to
    [plot_surface] and [contour]. *)
Definition visualize_surface_mesh
  : result (list (list Q) * list (list Q) * list (list Q)) :=
  x <- np_linspace 0 1 50 ;;
  y <- np_linspace 0 1 50 ;;
  let XY := np_meshgrid x y in
  let X := fst XY in
  let Y := snd XY in
  let Z := np_surface_function_2d X Y in
  Ok (X, Y, Z).

(** The entry [M[i][j]] of a matrix. *)
Definition entry (M : list (list Q)) (i j : nat) : Q :=
  nth j (nth i M []) 0.

(** ** The plot of the weekly temperatures *)

(** [enumerate(l)]: each element behind its index. *)
Definition enumerate {A : Type} (l : list A) : list (Z * A) :=
  combine (range (Z.of_nat (List.length l))) l.

(** Lines 18-20: the label and the position [(i, temp)] of each
    annotation, in the order of the loop. *)
Definition annotations (l : list Z) : list (string * (Z * Z)) :=
  map (fun p => ((str_int (snd p) ++ "°C")%string, (fst p, snd p))) (enumerate l).

(** Line 23: the limits [min(temperatures) - 2] and [max(temperatures) + 2]
    given to [plt.ylim]. *)
Definition ylim (l : list Z) : result (Z * Z) :=
  lo <- py_min l ;;
  hi <- py_max l ;;
  Ok (lo - 2, hi + 2)%Z.

(** ** Auxiliary notions for the properties *)

(** Two NumPy scalars that stand for the same number. *)
Definition np_equiv (a b : np_float) : Prop :=
  match a, b with
  | np_nan, np_nan => True
  | np_val x, np_val y => x == y
  | _, _ => False
  end.

(** A float that carries the given sign bit and is not NaN. *)
Definition has_sign (s : bool) (x : spec_float) : Prop :=
  match x with
  | S754_zero s' | S754_infinity s' | S754_finite s' _ _ => s' = s
  | S754_nan => False
  end.

Definition is_nan (x : spec_float) : bool :=
  match x with
  | S754_nan => true
  | _ => false
  end.

(** The distance between the double the loops return on an [n]×[n] grid,
    taken at its exact value, and the value 2/3 - 1/(6 n²) of exact
    arithmetic. *)
Definition rounding_gap (n : Z) : option Q :=
  match vol <- numerical_integration_riemann (F := spec_float) n ;; to_float vol with
  | Ok f =>
      match signed_value (classify f) with
      | Some q => Some (Qabs (q - ((2 # 3) - 1 / (6 * inject_Z n ^ 2))))
      | None => None
      end
  | Raise _ => None
  end.

(** ** One call of [numerical_integration_riemann], statement by statement *)

(** Where a call stands and what its local variables hold: before
    line 33; at the head of the outer loop (line 36) and of the inner loop
    (line 37) with the next index of each; before lines 39 and 40, with
    [x] and then [y] assigned; returned (line 42); or stopped by an
    exception. *)
Inductive riemann_state (F : Type) : Type :=
| AtWidth
| AtOuter (dx dy : F) (volume : pynum F) (i : Z)
| AtInner (dx dy : F) (volume : pynum F) (i j : Z)
| AtY (dx dy : F) (volume : pynum F) (i j : Z) (x : F)
| AtUpdate (dx dy : F) (volume : pynum F) (i j : Z) (x y : F)
| Returned (volume : pynum F)
| Raised (e : PyError).

Arguments AtWidth {F}.
Arguments AtOuter {F} dx dy volume i.
Arguments AtInner {F} dx dy volume i j.
Arguments AtY {F} dx dy volume i j x.
Arguments AtUpdate {F} dx dy volume i j x y.
Arguments Returned {F} volume.
Arguments Raised {F} e.

Section Machine.
Context {F : Type} `{PyFloat F}.

(** The statements of lines 33-42, one transition each; [range(n)] hands
    out 0, 1, ... while the index is below [n]. *)
Inductive riemann_step (n : Z) : riemann_state F -> riemann_state F -> Prop :=
| step_width (dx : F) :
    (* 33-34: dx = dy = 1.0 / n; volume = 0 *)
    riemann_cell_width n = Ok dx ->
    riemann_step n AtWidth (AtOuter dx dx (PyInt 0) 0)
| step_width_raise (e : PyError) :
    riemann_cell_width n = Raise e ->
    riemann_step n AtWidth (Raised e)
| step_outer_next (dx dy : F) (volume : pynum F) (i : Z) :
    (* 36: for i in range(n) *)
    (i < n)%Z ->
    riemann_step n (AtOuter dx dy volume i) (AtInner dx dy volume i 0)
| step_outer_exit (dx dy : F) (volume : pynum F) (i : Z) :
    (* 36 exhausted; 42: return volume *)
    (n <= i)%Z ->
    riemann_step n (AtOuter dx dy volume i) (Returned volume)
| step_inner_next (dx dy : F) (volume : pynum F) (i j : Z) (i' : F) :
    (* 37: for j in range(n); 38: x = (i + 0.5) * dx *)
    (j < n)%Z ->
    float_of_int i = Ok i' ->
    riemann_step n (AtInner dx dy volume i j)
                   (AtY dx dy volume i j (fmul (fadd i' half) dx))
| step_inner_raise (dx dy : F) (volume : pynum F) (i j : Z) (e : PyError) :
    (j < n)%Z ->
    float_of_int i = Raise e ->
    riemann_step n (AtInner dx dy volume i j) (Raised e)
| step_inner_exit (dx dy : F) (volume : pynum F) (i j : Z) :
    (* 37 exhausted: back to 36 with the next i *)
    (n <= j)%Z ->
    riemann_step n (AtInner dx dy volume i j) (AtOuter dx dy volume (i + 1))
| step_y (dx dy : F) (volume : pynum F) (i j : Z) (x j' : F) :
    (* 39: y = (j + 0.5) * dy *)
    float_of_int j = Ok j' ->
    riemann_step n (AtY dx dy volume i j x)
                   (AtUpdate dx dy volume i j x (fmul (fadd j' half) dy))
| step_y_raise (dx dy : F) (volume : pynum F) (i j : Z) (x : F) (e : PyError) :
    float_of_int j = Raise e ->
    riemann_step n (AtY dx dy volume i j x) (Raised e)
| step_update (dx dy : F) (volume : pynum F) (i j : Z) (x y z v : F) :
    (* 40: volume += surface_function(x, y) * dx * dy *)
    surface_function x y = Ok z ->
    to_float volume = Ok v ->
    riemann_step n (AtUpdate dx dy volume i j x y)
                   (AtInner dx dy (PyFlt (fadd v (fmul (fmul z dx) dy))) i (j + 1))
| step_update_raise_call (dx dy : F) (volume : pynum F) (i j : Z) (x y : F)
                         (e : PyError) :
    surface_function x y = Raise e ->
    riemann_step n (AtUpdate dx dy volume i j x y) (Raised e)
| step_update_raise_add (dx dy : F) (volume : pynum F) (i j : Z) (x y z : F)
                        (e : PyError) :
    surface_function x y = Ok z ->
    to_float volume = Raise e ->
    riemann_step n (AtUpdate dx dy volume i j x y) (Raised e).

(** Statements run one after the other. *)
Inductive riemann_steps (n : Z) : riemann_state F -> riemann_state F -> Prop :=
| steps_done (s : riemann_state F) : riemann_steps n s s
| steps_next (s s1 s2 : riemann_state F) :
    riemann_step n s s1 -> riemann_steps n s1 s2 -> riemann_steps n s s2.

(** A call that is over: it returned or it raised. *)
Definition finished (s : riemann_state F) : Prop :=
  match s with
  | Returned _ | Raised _ => True
  | _ => False
  end.

(** A complete run of a call with argument [n], ending in [s]. *)
Definition riemann_run (n : Z) (s : riemann_state F) : Prop :=
  riemann_steps n AtWidth s /\ finished s.

(** How a call that is over shows to its caller. *)
Definition outcome_state (r : result (pynum F)) : riemann_state F :=
  match r with
  | Ok volume => Returned volume
  | Raise e => Raised e
  end.

End Machine.

(** * Properties *)

(** ** The error monad and the loops *)

Lemma range_length (n : Z) : List.length (range n) = Z.to_nat n.
Proof. unfold range. now rewrite length_map, length_seq. Qed.

Lemma range_nonempty (n : Z) : (1 <= n)%Z -> range n <> [].
Proof.
  intros Hn E. apply (f_equal (@List.length Z)) in E.
  rewrite range_length in E. simpl in E. lia.
Qed.

Lemma range_succ (k : nat) :
  range (Z.of_nat (S k)) = range (Z.of_nat k) ++ [Z.of_nat k].
Proof.
  unfold range. rewrite !Nat2Z.id, seq_S, map_app. reflexivity.
Qed.


(** ** Sums of rationals *)

Lemma Qsum_app (l1 l2 : list Q) : Qsum (l1 ++ l2) == Qsum l1 + Qsum l2.
Proof.
  induction l1 as [|a l1 IH]; simpl.
  - ring.
  - rewrite IH. ring.
Qed.

Lemma Qsum_map_ext {A : Type} (f g : A -> Q) (l : list A) :
  (forall a, In a l -> f a == g a) -> Qsum (map f l) == Qsum (map g l).
Proof.
  induction l as [|a l IH]; intros E; simpl.
  - reflexivity.
  - rewrite (E a (or_introl eq_refl)), IH; [reflexivity|].
    intros b Hb. apply E. now right.
Qed.

Lemma Qsum_map_plus {A : Type} (f g : A -> Q) (l : list A) :
  Qsum (map (fun a => f a + g a) l) == Qsum (map f l) + Qsum (map g l).
Proof.
  induction l as [|a l IH]; simpl.
  - ring.
  - rewrite IH. ring.
Qed.

Lemma Qsum_map_scale {A : Type} (c : Q) (f : A -> Q) (l : list A) :
  Qsum (map (fun a => c * f a) l) == c * Qsum (map f l).
Proof.
  induction l as [|a l IH]; simpl.
  - ring.
  - rewrite IH. ring.
Qed.

Lemma Qsum_map_const {A : Type} (c : Q) (l : list A) :
  Qsum (map (fun _ => c) l) == inject_Z (Z.of_nat (List.length l)) * c.
Proof.
  induction l as [|a l IH].
  - simpl. ring.
  - change (c + Qsum (map (fun _ => c) l)
            == inject_Z (Z.of_nat (S (List.length l))) * c).
    rewrite IH, Nat2Z.inj_succ. unfold Z.succ. rewrite inject_Z_plus. ring.
Qed.

Lemma Qsum_list_prod {A B : Type} (f : A * B -> Q) (l1 : list A) (l2 : list B) :
  Qsum (map f (list_prod l1 l2))
  == Qsum (map (fun a => Qsum (map (fun b => f (a, b)) l2)) l1).
Proof.
  induction l1 as [|a l1 IH]; simpl.
  - reflexivity.
  - rewrite map_app, Qsum_app, IH, map_map. reflexivity.
Qed.

Lemma Qsum_bounds (lo hi : Q) (l : list Q) :
  (forall q, In q l -> lo <= q /\ q <= hi) ->
  inject_Z (Z.of_nat (List.length l)) * lo <= Qsum l
  /\ Qsum l <= inject_Z (Z.of_nat (List.length l)) * hi.
Proof.
  induction l as [|a l IH]; intros B.
  - simpl. split; apply Qle_lteq; right; ring.
  - destruct (B a (or_introl eq_refl)) as [Ha1 Ha2].
    destruct IH as [IH1 IH2]; [intros q Hq; apply B; now right|].
    change (Qsum (a :: l)) with (a + Qsum l).
    change (List.length (a :: l)) with (S (List.length l)).
    rewrite Nat2Z.inj_succ. unfold Z.succ. rewrite inject_Z_plus.
    split.
    + setoid_replace ((inject_Z (Z.of_nat (List.length l)) + inject_Z 1) * lo)
        with (lo + inject_Z (Z.of_nat (List.length l)) * lo) by ring.
      now apply Qplus_le_compat.
    + setoid_replace ((inject_Z (Z.of_nat (List.length l)) + inject_Z 1) * hi)
        with (hi + inject_Z (Z.of_nat (List.length l)) * hi) by ring.
      now apply Qplus_le_compat.
Qed.

(** ** The Riemann loops in exact arithmetic *)

Lemma riemann_body_Q (dx dy : Q) (i j : Z) (s : pynum Q) :
  riemann_body dx dy i j s = Ok (PyFlt (num_val s + riemann_term dx dy i j)).
Proof. destruct s; reflexivity. Qed.

Lemma inner_loop_Q (dx dy : Q) (i : Z) (l : list Z) (s : pynum Q) :
  for_ l (fun j volume => riemann_body dx dy i j volume) s
  = Ok (accumulate s (map (riemann_term dx dy i) l)).
Proof.
  revert s; induction l as [|j l IH]; intros s.
  - reflexivity.
  - simpl for_. rewrite riemann_body_Q. simpl bind. rewrite IH. reflexivity.
Qed.

Lemma accumulate_val (ts : list Q) (s : pynum Q) :
  num_val (accumulate s ts) == num_val s + Qsum ts.
Proof.
  revert s; induction ts as [|t ts IH]; intros s.
  - simpl. ring.
  - change (accumulate s (t :: ts)) with (accumulate (PyFlt (num_val s + t)) ts).
    rewrite IH.
    change (Qsum (t :: ts)) with (t + Qsum ts).
    change (num_val (PyFlt (num_val s + t))) with (num_val s + t).
    ring.
Qed.

Lemma accumulate_float (ts : list Q) (s : pynum Q) :
  ts <> [] -> accumulate s ts = PyFlt (num_val (accumulate s ts)).
Proof.
  revert s; induction ts as [|t ts IH]; intros s Hne; [contradiction|].
  destruct ts as [|t' ts].
  - reflexivity.
  - change (accumulate s (t :: t' :: ts))
      with (accumulate (PyFlt (num_val s + t)) (t' :: ts)).
    apply IH. discriminate.
Qed.

Lemma accumulate_keeps_float (ts : list Q) (q : Q) :
  accumulate (PyFlt q) ts = PyFlt (num_val (accumulate (PyFlt q) ts)).
Proof.
  destruct ts as [|t ts]; [reflexivity|].
  apply accumulate_float. discriminate.
Qed.

Lemma outer_loop_Q (dx dy : Q) (li lo : list Z) (s : pynum Q) :
  for_ lo
    (fun i volume => for_ li (fun j volume => riemann_body dx dy i j volume) volume) s
  = Ok (fold_left (fun v i => accumulate v (map (riemann_term dx dy i) li)) lo s).
Proof.
  revert s; induction lo as [|i lo IH]; intros s.
  - reflexivity.
  - simpl for_. rewrite inner_loop_Q. simpl bind. rewrite IH. reflexivity.
Qed.

Lemma outer_val (dx dy : Q) (li lo : list Z) (s : pynum Q) :
  num_val (fold_left (fun v i => accumulate v (map (riemann_term dx dy i) li)) lo s)
  == num_val s + Qsum (map (fun i => Qsum (map (riemann_term dx dy i) li)) lo).
Proof.
  revert s; induction lo as [|i lo IH]; intros s.
  - simpl. ring.
  - simpl fold_left. rewrite IH, accumulate_val.
    change (Qsum (map (fun i0 => Qsum (map (riemann_term dx dy i0) li)) (i :: lo)))
      with (Qsum (map (riemann_term dx dy i) li)
            + Qsum (map (fun i0 => Qsum (map (riemann_term dx dy i0) li)) lo)).
    ring.
Qed.

Lemma outer_keeps_float (dx dy : Q) (li lo : list Z) (q : Q) :
  exists q',
    fold_left (fun v i => accumulate v (map (riemann_term dx dy i) li)) lo (PyFlt q)
    = PyFlt q'.
Proof.
  revert q; induction lo as [|i lo IH]; intros q.
  - now exists q.
  - simpl fold_left. rewrite accumulate_keeps_float. apply IH.
Qed.

Lemma outer_float (dx dy : Q) (li lo : list Z) (s : pynum Q) :
  li <> [] -> lo <> [] ->
  exists q',
    fold_left (fun v i => accumulate v (map (riemann_term dx dy i) li)) lo s
    = PyFlt q'.
Proof.
  intros Hli Hlo. destruct lo as [|i lo]; [contradiction|].
  simpl fold_left. rewrite accumulate_float.
  - apply outer_keeps_float.
  - destruct li; [contradiction | discriminate].
Qed.

Lemma inject_Z_nonzero (n : Z) : n <> 0%Z -> Qeq_bool (inject_Z n) 0 = false.
Proof.
  intros Hn. destruct (Qeq_bool (inject_Z n) 0) eqn:E; [|reflexivity].
  apply Qeq_bool_eq in E. unfold Qeq in E. simpl in E. lia.
Qed.

Lemma inject_Z_neq0 (n : Z) : n <> 0%Z -> ~ inject_Z n == 0.
Proof. intros Hn E. unfold Qeq in E. simpl in E. lia. Qed.

Lemma riemann_cell_width_Q (n : Z) :
  n <> 0%Z -> riemann_cell_width n = Ok (1 / inject_Z n).
Proof.
  intros Hn. unfold riemann_cell_width. simpl.
  now rewrite inject_Z_nonzero.
Qed.

(** The double sum the loops compute, term by term. *)
Lemma riemann_Q_sum (n : Z) :
  (1 <= n)%Z ->
  exists v : Q,
    numerical_integration_riemann n = Ok (PyFlt v)
    /\ v == Qsum (map (fun i =>
                         Qsum (map (riemann_term (1 / inject_Z n) (1 / inject_Z n) i)
                                   (range n)))
                      (range n)).
Proof.
  intros Hn. unfold numerical_integration_riemann.
  rewrite riemann_cell_width_Q by lia. simpl bind.
  unfold riemann_loops. rewrite outer_loop_Q.
  destruct (outer_float (1 / inject_Z n) (1 / inject_Z n) (PyInt 0)
              (range_nonempty Hn) (range_nonempty Hn)) as [q Hq].
  exists q. split; [now rewrite Hq|].
  change q with (num_val (PyFlt q)). rewrite <- Hq, outer_val.
  simpl num_val. ring.
Qed.

(** ** The closed form of the midpoint sum *)

Lemma sum_midpoint_squares (k : nat) :
  Qsum (map (fun i => (inject_Z i + (1 # 2)) ^ 2) (range (Z.of_nat k)))
  == (4 * inject_Z (Z.of_nat k) ^ 3 - inject_Z (Z.of_nat k)) / 12.
Proof.
  induction k as [|k IH].
  - reflexivity.
  - rewrite range_succ, map_app, Qsum_app, IH.
    rewrite Nat2Z.inj_succ. unfold Z.succ. rewrite inject_Z_plus.
    simpl Qsum. field.
Qed.

Lemma riemann_term_factor (dx : Q) (i j : Z) :
  riemann_term dx dx i j
  == dx ^ 4 * (inject_Z i + (1 # 2)) ^ 2 + dx ^ 4 * (inject_Z j + (1 # 2)) ^ 2.
Proof. unfold riemann_term. ring. Qed.

Lemma double_sum_factor (dx : Q) (l : list Z) :
  Qsum (map (fun i => Qsum (map (riemann_term dx dx i) l)) l)
  == 2 * dx ^ 4 * inject_Z (Z.of_nat (List.length l))
     * Qsum (map (fun i => (inject_Z i + (1 # 2)) ^ 2) l).
Proof.
  set (sq := fun i : Z => (inject_Z i + (1 # 2)) ^ 2).
  set (L := inject_Z (Z.of_nat (List.length l))).
  assert (inner : forall i,
             Qsum (map (riemann_term dx dx i) l)
             == dx ^ 4 * L * sq i + dx ^ 4 * Qsum (map sq l)).
  { intros i.
    rewrite (Qsum_map_ext (riemann_term dx dx i)
               (fun j => dx ^ 4 * sq i + dx ^ 4 * sq j))
      by (intros; apply riemann_term_factor).
    rewrite Qsum_map_plus, Qsum_map_const, Qsum_map_scale. fold L. ring. }
  rewrite (Qsum_map_ext _ (fun i => (dx ^ 4 * L) * sq i + dx ^ 4 * Qsum (map sq l)))
    by (intros; apply inner).
  rewrite Qsum_map_plus, Qsum_map_const, Qsum_map_scale. fold L. ring.
Qed.

(** [riemann(n) = 2/3 - 1/(6 n²)] in exact arithmetic. *)
Lemma riemann_Q_closed (n : Z) :
  (1 <= n)%Z ->
  exists v : Q,
    numerical_integration_riemann n = Ok (PyFlt v)
    /\ v == (2 # 3) - 1 / (6 * inject_Z n ^ 2).
Proof.
  intros Hn. destruct (riemann_Q_sum Hn) as [v [Hv Hs]].
  exists v. split; [exact Hv|].
  rewrite Hs, double_sum_factor, range_length.
  assert (Hk : n = Z.of_nat (Z.to_nat n)) by lia.
  revert Hk. generalize (Z.to_nat n). intros k Hk. subst n.
  rewrite sum_midpoint_squares.
  field. apply inject_Z_neq0. lia.
Qed.

(** ** The models on small inputs *)

(** The binary64 literals stand for 0.5 and 1.0. *)
Example B64_literals :
  (exists q, classify (half : spec_float) = Finite false q /\ q == 1 # 2)
  /\ (exists q, classify (one : spec_float) = Finite false q /\ q == 1)
  /\ float_of_int (F := spec_float) 1 = Ok one.
Proof.
  split; [eexists; split; [reflexivity | vm_compute; reflexivity]|].
  split; [eexists; split; [reflexivity | vm_compute; reflexivity]|].
  vm_compute. reflexivity.
Qed.

(** On the 2×2 grid the four midpoints give 5/8. *)
Example riemann_2_by_2 :
  exists v : Q, numerical_integration_riemann 2 = Ok (PyFlt v) /\ v == 5 # 8.
Proof. eexists. split; vm_compute; reflexivity. Qed.

Lemma range_nonpositive (n : Z) : (n <= 0)%Z -> range n = [].
Proof.
  intros Hn. unfold range. destruct n; try reflexivity; lia.
Qed.

(** A negative [n] leaves both loops empty: the [int] 0 comes back. *)
Lemma riemann_negative (n : Z) :
  (n < 0)%Z -> numerical_integration_riemann (F := Q) n = Ok (PyInt 0).
Proof.
  intros Hn. unfold numerical_integration_riemann.
  rewrite riemann_cell_width_Q by lia. cbn [bind].
  unfold riemann_loops. rewrite range_nonpositive by lia. reflexivity.
Qed.

(** The [.1f] format rounds ties to even and keeps the sign of a value
    that rounds to zero. *)
Example format_1f_samples :
  format_1f_value (Finite false (2125 # 100)) = "21.2"%string
  /\ format_1f_value (Finite false (2135 # 100)) = "21.4"%string
  /\ format_1f_value (Finite false (1996 # 100)) = "20.0"%string
  /\ format_1f_value (Finite true (1 # 100)) = "-0.0"%string.
Proof. repeat split; vm_compute; reflexivity. Qed.

(** With no points the mean of the empty array is NaN; a negative count
    is refused by NumPy. *)
Example monte_carlo_without_points (g : rng_state) :
  fst (monte_carlo_integration 0 g) = Ok np_nan
  /\ fst (monte_carlo_integration (-1) g) = Raise ValueError.
Proof. split; reflexivity. Qed.

(** ** The analytical value *)

(** C1. [analytical_solution()] takes no input and cannot fail. In exact
    arithmetic it returns the constant 2/3, the value of the double
    integral; as a double it returns the one nearest to 2/3, less than half
    a unit in the last place (2^-54) away from it. *)
Theorem analytical_solution_two_thirds :
  analytical_solution (F := Q) = Ok (2 # 3)
  /\ exists x : spec_float,
       analytical_solution (F := spec_float) = Ok x
       /\ exists q : Q,
            classify x = Finite false q
            /\ Qabs (q - (2 # 3)) < 1 # (2 ^ 54).
Proof.
  split; [reflexivity|].
  exists (S754_finite false 6004799503160661 (-53)).
  split; [vm_compute; reflexivity|].
  exists (B64.magnitude 6004799503160661 (-53)).
  split; [reflexivity|].
  vm_compute. reflexivity.
Qed.

(** ** One cell *)

(** C4. [riemann(1)] returns exactly 0.5: the integrand at the midpoint
    (0.5, 0.5) of the single cell, times the unit cell area. This holds in
    exact arithmetic and, bit for bit, in binary64. *)
Theorem riemann_one_cell :
  (exists v : Q,
      numerical_integration_riemann 1 = Ok (PyFlt v)
      /\ v == 1 # 2
      /\ exists z : Q, surface_function (1 # 2) (1 # 2) = Ok z /\ v == z * 1)
  /\ numerical_integration_riemann (F := spec_float) 1 = Ok (PyFlt half)
  /\ surface_function (F := spec_float) half half = Ok half
  /\ fmul (F := spec_float) half one = half.
Proof.
  split.
  - eexists. split; [vm_compute; reflexivity|].
    split; [reflexivity|].
    eexists. split; [vm_compute; reflexivity|]. reflexivity.
  - repeat split; vm_compute; reflexivity.
Qed.

(** ** The weekly temperature report *)

(** C7. On the series [20,22,19,23,21,24,20] the report computes the
    average sum/count = 149/7 = 21.28571..., printed as 21.3, the maximum
    24, the minimum 19 and the range 24 - 19 = 5; the double that Python
    computes for the average lies in the same interval and prints the
    same. *)
Theorem weekly_report_statistics :
  py_sum temperatures = 149%Z
  /\ py_len temperatures = 7%Z
  /\ average (F := Q) temperatures = Ok (149 # 7)
  /\ (2128571 # 100000 < 149 # 7 /\ 149 # 7 < 2128572 # 100000)
  /\ format_1f (149 # 7) = "21.3"%string
  /\ (exists x : spec_float,
         average (F := spec_float) temperatures = Ok x
         /\ format_1f x = "21.3"%string
         /\ exists q : Q,
              classify x = Finite false q
              /\ 2128571 # 100000 < q /\ q < 2128572 # 100000)
  /\ py_max temperatures = Ok 24%Z
  /\ py_min temperatures = Ok 19%Z
  /\ temperature_range temperatures = Ok (24 - 19)%Z
  /\ temperature_range temperatures = Ok 5%Z
  /\ weekly_summary (F := Q)
     = Ok [ "Weekly Temperature Summary:";
            "Average temperature: 21.3°C";
            "Highest temperature: 24°C";
            "Lowest temperature: 19°C";
            "Temperature range: 5°C" ]%string
  /\ weekly_summary (F := spec_float) = weekly_summary (F := Q).
Proof.
  repeat match goal with |- _ /\ _ => split end;
    try (vm_compute; reflexivity).
  exists (S754_finite false 5991395932841106 (-48)).
  split; [vm_compute; reflexivity|].
  split; [vm_compute; reflexivity|].
  exists (B64.magnitude 5991395932841106 (-48)).
  repeat split; vm_compute; reflexivity.
Qed.

(** ** The midpoint rule *)

Lemma riemann_term_spec (n i j : Z) :
  n <> 0%Z ->
  riemann_term (1 / inject_Z n) (1 / inject_Z n) i j
  == spec_surface (fst (spec_midpoint n (i, j))) (snd (spec_midpoint n (i, j)))
     * spec_cell_area n.
Proof.
  intros Hn. unfold riemann_term, spec_surface, spec_midpoint, spec_cell_area.
  simpl fst; simpl snd. field. now apply inject_Z_neq0.
Qed.

(** C2. For every integer n >= 1, [riemann(n)] returns the midpoint-rule
    sum of the specification: the n×n grid of cells of area 1/n², the
    integrand x² + y² taken at each cell's midpoint ((i+0.5)/n, (j+0.5)/n),
    and f(midpoint)·cell_area added up over the n² cells (exact
    arithmetic). *)
Theorem riemann_is_midpoint_rule (n : Z) :
  (1 <= n)%Z ->
  exists v : Q,
    numerical_integration_riemann n = Ok (PyFlt v)
    /\ v == midpoint_rule_spec n
    /\ List.length (spec_cells n) = (Z.to_nat n * Z.to_nat n)%nat.
Proof.
  intros Hn. destruct (riemann_Q_sum Hn) as [v [Hv Hs]].
  exists v. split; [exact Hv|]. split.
  - rewrite Hs. unfold midpoint_rule_spec, spec_cells.
    rewrite Qsum_list_prod.
    apply Qsum_map_ext; intros i _.
    apply Qsum_map_ext; intros j _.
    apply riemann_term_spec. lia.
  - unfold spec_cells. now rewrite length_prod, range_length.
Qed.

Lemma riemann_is_midpoint_rule_at_3 :
  (1 <= 3)%Z
  /\ exists v : Q,
       numerical_integration_riemann 3 = Ok (PyFlt v)
       /\ v == midpoint_rule_spec 3
       /\ List.length (spec_cells 3) = (Z.to_nat 3 * Z.to_nat 3)%nat.
Proof.
  split; [lia|]. apply (@riemann_is_midpoint_rule 3). lia.
Defined.

(** ** The closed form *)

Lemma closed_form_increasing (n m : Z) :
  (1 <= n)%Z -> (n < m)%Z ->
  (2 # 3) - 1 / (6 * inject_Z n ^ 2) < (2 # 3) - 1 / (6 * inject_Z m ^ 2).
Proof.
  intros Hn Hm. unfold Qlt, Qminus, Qplus, Qopp, Qdiv, Qinv, Qmult, Qpower, Qpower_positive, inject_Z.
  simpl pow_pos. unfold Qmult. simpl Qnum; simpl Qden.
  destruct n as [|n|n]; try lia. destruct m as [|m|m]; try lia.
  simpl. nia.
Qed.

Lemma closed_form_below (n : Z) :
  (1 <= n)%Z -> (2 # 3) - 1 / (6 * inject_Z n ^ 2) < 2 # 3.
Proof.
  intros Hn. unfold Qlt, Qminus, Qplus, Qopp, Qdiv, Qinv, Qmult, Qpower, Qpower_positive, inject_Z.
  simpl pow_pos. unfold Qmult. simpl Qnum; simpl Qden.
  destruct n as [|n|n]; try lia.
  simpl. nia.
Qed.

(** C9. In exact rational arithmetic the midpoint loop has the closed form
    [riemann(n) = 2/3 - 1/(6 n²)] for every integer n >= 1; the estimate
    is strictly below 2/3 and strictly larger on every finer grid. *)
Theorem riemann_closed_form (n m : Z) :
  (1 <= n)%Z -> (n < m)%Z ->
  exists vn vm : Q,
    numerical_integration_riemann n = Ok (PyFlt vn)
    /\ numerical_integration_riemann m = Ok (PyFlt vm)
    /\ vn == (2 # 3) - 1 / (6 * inject_Z n ^ 2)
    /\ vm == (2 # 3) - 1 / (6 * inject_Z m ^ 2)
    /\ vn < 2 # 3
    /\ vm < 2 # 3
    /\ vn < vm.
Proof.
  intros Hn Hm.
  destruct (riemann_Q_closed Hn) as [vn [Rn En]].
  assert (Hm1 : (1 <= m)%Z) by lia.
  destruct (riemann_Q_closed Hm1) as [vm [Rm Em]].
  exists vn, vm. repeat split; try assumption.
  - rewrite En. now apply closed_form_below.
  - rewrite Em. now apply closed_form_below.
  - rewrite En, Em. now apply closed_form_increasing.
Qed.

Lemma riemann_closed_form_at_1_2 :
  (1 <= 1)%Z /\ (1 < 2)%Z
  /\ exists vn vm : Q,
       numerical_integration_riemann 1 = Ok (PyFlt vn)
       /\ numerical_integration_riemann 2 = Ok (PyFlt vm)
       /\ vn == (2 # 3) - 1 / (6 * inject_Z 1 ^ 2)
       /\ vm == (2 # 3) - 1 / (6 * inject_Z 2 ^ 2)
       /\ vn < 2 # 3
       /\ vm < 2 # 3
       /\ vn < vm.
Proof.
  split; [lia|]. split; [lia|]. apply (@riemann_closed_form 1 2); lia.
Defined.

(** ** Convergence over the grid sizes of [main] *)

Lemma signed_value_Q (q : Q) :
  exists q' : Q, signed_value (classify q) = Some q' /\ q' == q.
Proof.
  simpl. destruct (Qle_bool 0 q) eqn:E; simpl.
  - exists (Qabs q). split; [reflexivity|].
    apply Qabs_pos. now apply Qle_bool_iff.
  - exists (- Qabs q). split; [reflexivity|].
    assert (Hq : q <= 0).
    { apply Qnot_lt_le. intros Hlt. apply Qlt_le_weak in Hlt.
      apply Qle_bool_iff in Hlt. congruence. }
    rewrite (Qabs_neg q Hq). ring.
Qed.

Lemma closed_form_error (n : Z) (v : Q) :
  (1 <= n)%Z ->
  v == (2 # 3) - 1 / (6 * inject_Z n ^ 2) ->
  Qabs (v - (2 # 3)) == 1 / (6 * inject_Z n ^ 2).
Proof.
  intros Hn Hv.
  assert (Hpos : 0 <= 1 / (6 * inject_Z n ^ 2)).
  { apply Qlt_le_weak.
    assert (H0 := closed_form_below Hn).
    apply (Qplus_lt_l _ _ ((2 # 3) - 1 / (6 * inject_Z n ^ 2))).
    setoid_replace (1 / (6 * inject_Z n ^ 2) + ((2 # 3) - 1 / (6 * inject_Z n ^ 2)))
      with (2 # 3) by ring.
    now rewrite Qplus_0_l. }
  setoid_replace (v - (2 # 3)) with (- (1 / (6 * inject_Z n ^ 2)))
    by (rewrite Hv; ring).
  rewrite Qabs_opp. now apply Qabs_pos.
Qed.

Lemma riemann_error_Q (n : Z) :
  (1 <= n)%Z ->
  exists e : Q, riemann_error n = Ok e /\ e == 1 / (6 * inject_Z n ^ 2).
Proof.
  intros Hn. destruct (riemann_Q_closed Hn) as [v [Rv Ev]].
  exists (Qabs (v - (2 # 3))). split.
  - unfold riemann_error, convergence_row.
    change (analytical_solution (F := Q)) with (Ok (2 # 3)).
    simpl bind. rewrite Rv. reflexivity.
  - now apply closed_form_error.
Qed.

Lemma exact_error_Q (n : Z) :
  (1 <= n)%Z ->
  exists e : Q, exact_error (F := Q) n = Some e /\ e == 1 / (6 * inject_Z n ^ 2).
Proof.
  intros Hn. destruct (riemann_Q_closed Hn) as [v [Rv Ev]].
  destruct (signed_value_Q v) as [v' [Sv Ev']].
  exists (Qabs (v' - (2 # 3))). split.
  - unfold exact_error. rewrite Rv. simpl bind. simpl to_float. cbv iota beta.
    now rewrite Sv.
  - apply closed_form_error; [exact Hn|]. now rewrite Ev'.
Qed.

Lemma closed_form_error_decreasing (n m : Z) :
  (1 <= n)%Z -> (n < m)%Z ->
  1 / (6 * inject_Z m ^ 2) < 1 / (6 * inject_Z n ^ 2).
Proof.
  intros Hn Hm.
  assert (H0 := closed_form_increasing Hn Hm).
  apply (Qplus_lt_l _ _ ((2 # 3) - 1 / (6 * inject_Z n ^ 2) - 1 / (6 * inject_Z m ^ 2))).
  setoid_replace (1 / (6 * inject_Z m ^ 2)
                  + ((2 # 3) - 1 / (6 * inject_Z n ^ 2) - 1 / (6 * inject_Z m ^ 2)))
    with ((2 # 3) - 1 / (6 * inject_Z n ^ 2)) by ring.
  setoid_replace (1 / (6 * inject_Z n ^ 2)
                  + ((2 # 3) - 1 / (6 * inject_Z n ^ 2) - 1 / (6 * inject_Z m ^ 2)))
    with ((2 # 3) - 1 / (6 * inject_Z m ^ 2)) by ring.
  exact H0.
Qed.

Lemma error_shrinks_Q (n m : Z) :
  (1 <= n)%Z -> (n < m)%Z -> error_shrinks (F := Q) n m.
Proof.
  intros Hn Hm. assert (Hm1 : (1 <= m)%Z) by lia.
  assert (Hlt := closed_form_error_decreasing Hn Hm).
  split.
  - destruct (riemann_error_Q Hn) as [en [Rn En]].
    destruct (riemann_error_Q Hm1) as [em [Rm Em]].
    exists en, em. repeat split; try assumption.
    simpl. apply negb_true_iff.
    destruct (Qle_bool en em) eqn:E; [|reflexivity].
    apply Qle_bool_iff in E. rewrite En, Em in E.
    exfalso. exact (Qlt_not_le _ _ Hlt E).
  - destruct (exact_error_Q Hn) as [en [Rn En]].
    destruct (exact_error_Q Hm1) as [em [Rm Em]].
    exists en, em. repeat split; try assumption.
    now rewrite En, Em.
Qed.

(** The five doubles that the loops produce for the grid sizes of [main]. *)
Lemma riemann_B64_10 :
  numerical_integration_riemann (F := spec_float) 10
  = Ok (PyFlt (S754_finite false 5989787504402761 (-53))).
Proof. vm_compute. reflexivity. Qed.

Lemma riemann_B64_25 :
  numerical_integration_riemann (F := spec_float) 25
  = Ok (PyFlt (S754_finite false 6002397583359395 (-53))).
Proof. vm_compute. reflexivity. Qed.

Lemma riemann_B64_50 :
  numerical_integration_riemann (F := spec_float) 50
  = Ok (PyFlt (S754_finite false 6004199023210363 (-53))).
Proof. vm_compute. reflexivity. Qed.

Lemma riemann_B64_100 :
  numerical_integration_riemann (F := spec_float) 100
  = Ok (PyFlt (S754_finite false 6004649383173087 (-53))).
Proof. vm_compute. reflexivity. Qed.

Lemma riemann_B64_200 :
  numerical_integration_riemann (F := spec_float) 200
  = Ok (PyFlt (S754_finite false 6004761973163737 (-53))).
Proof. vm_compute. reflexivity. Qed.

Ltac b64_errors Hn Hm :=
  split;
  [ unfold riemann_error, convergence_row; rewrite Hn, Hm;
    eexists; eexists;
    split; [vm_compute; reflexivity|];
    split; [vm_compute; reflexivity|];
    vm_compute; reflexivity
  | unfold exact_error; rewrite Hn, Hm;
    eexists; eexists;
    split; [vm_compute; reflexivity|];
    split; [vm_compute; reflexivity|];
    vm_compute; reflexivity ].

Lemma error_shrinks_B64_10_25 : error_shrinks (F := spec_float) 10 25.
Proof. b64_errors riemann_B64_10 riemann_B64_25. Qed.

Lemma error_shrinks_B64_25_50 : error_shrinks (F := spec_float) 25 50.
Proof. b64_errors riemann_B64_25 riemann_B64_50. Qed.

Lemma error_shrinks_B64_50_100 : error_shrinks (F := spec_float) 50 100.
Proof. b64_errors riemann_B64_50 riemann_B64_100. Qed.

Lemma error_shrinks_B64_100_200 : error_shrinks (F := spec_float) 100 200.
Proof. b64_errors riemann_B64_100 riemann_B64_200. Qed.

(** C3. Across the grid sizes 10, 25, 50, 100, 200 the absolute error
    |riemann(n) - 2/3| strictly decreases: for each consecutive pair
    n < m, the error at m is below the error at n, in exact arithmetic
    and for the doubles the loops return. *)
Theorem riemann_error_decreases :
  Forall (fun p => (fst p < snd p)%Z
                   /\ error_shrinks (F := Q) (fst p) (snd p)
                   /\ error_shrinks (F := spec_float) (fst p) (snd p))
         (consecutive_pairs grid_sizes).
Proof.
  change (consecutive_pairs grid_sizes)
    with [(10, 25); (25, 50); (50, 100); (100, 200)]%Z.
  repeat apply Forall_cons; [ | | | | apply Forall_nil ];
    cbn beta iota delta [fst snd];
    (split; [reflexivity|]);
    (split; [apply error_shrinks_Q; lia|]).
  - exact error_shrinks_B64_10_25.
  - exact error_shrinks_B64_25_50.
  - exact error_shrinks_B64_50_100.
  - exact error_shrinks_B64_100_200.
Qed.

(** ** The Monte Carlo estimate *)

Lemma combine_map_same {A B C : Type} (f : A -> B) (h : A -> C) (l : list A) :
  combine (map f l) (map h l) = map (fun a => (f a, h a)) l.
Proof.
  induction l as [|a l IH]; simpl; [reflexivity | now rewrite IH].
Qed.

Lemma np_mean_nonempty (a : list Q) :
  a <> [] -> np_mean a = np_val (Qsum a / inject_Z (Z.of_nat (List.length a))).
Proof. destruct a; [contradiction | reflexivity]. Qed.

(** One run of [monte_carlo_integration]: the value it returns and the
    generator it leaves behind. *)
Lemma monte_carlo_run (n_points : Z) (g : rng_state) :
  (0 <= n_points)%Z ->
  monte_carlo_integration n_points g
  = (Ok (np_times
           (np_mean
              (map (fun k => (0 + (1 - 0) * samples g (consumed g + k)%nat) ^ 2
                             + (0 + (1 - 0)
                                    * samples g (consumed g + Z.to_nat n_points + k)%nat) ^ 2)
                   (seq 0 (Z.to_nat n_points))))
           1),
     {| samples := samples g;
        consumed := (consumed g + Z.to_nat n_points + Z.to_nat n_points)%nat |}).
Proof.
  intros Hn. unfold monte_carlo_integration, run_bind, np_random_uniform, run_ret.
  assert (E : (n_points <? 0)%Z = false) by now apply Z.ltb_ge.
  rewrite E. cbn [samples consumed]. unfold np_surface_function.
  rewrite combine_map_same, map_map. reflexivity.
Qed.

Lemma unit_square_bounds (x y : Q) :
  0 <= x -> x <= 1 -> 0 <= y -> y <= 1 ->
  0 <= spec_surface x y /\ spec_surface x y <= 2.
Proof. intros Hx0 Hx1 Hy0 Hy1. unfold spec_surface. split; nra. Qed.

(** C5. For every nPoints >= 1 and every draw of the samples from the unit
    square, [monteCarlo(nPoints)] returns the sample mean of x² + y² over
    the nPoints drawn points, and the result lies in [0, 2] (exact
    arithmetic). *)
Theorem monte_carlo_sample_mean (n_points : Z) (g : rng_state) :
  (1 <= n_points)%Z ->
  unit_samples g ->
  exists v : Q,
    fst (monte_carlo_integration n_points g) = Ok (np_val v)
    /\ List.length (drawn_points g (Z.to_nat n_points)) = Z.to_nat n_points
    /\ v == sample_mean_spec (drawn_points g (Z.to_nat n_points))
    /\ 0 <= v /\ v <= 2.
Proof.
  intros Hn Hg. rewrite monte_carlo_run by lia.
  set (N := Z.to_nat n_points).
  set (zs := map _ (seq 0 N)).
  assert (Hlen : List.length zs = N) by (unfold zs; now rewrite length_map, length_seq).
  assert (HN : (0 < Z.of_nat N)%Z) by (unfold N; lia).
  assert (Hne : zs <> []).
  { intros E. rewrite E in Hlen. simpl in Hlen. lia. }
  rewrite (np_mean_nonempty Hne). cbn [np_times fst].
  exists (Qsum zs / inject_Z (Z.of_nat (List.length zs)) * 1).
  split; [reflexivity|].
  assert (Hpts : List.length (drawn_points g N) = N)
    by (unfold drawn_points; now rewrite length_map, length_seq).
  split; [exact Hpts|].
  assert (Hsum : Qsum zs
                 == Qsum (map (fun p => spec_surface (fst p) (snd p)) (drawn_points g N))).
  { unfold zs, drawn_points. rewrite map_map.
    apply Qsum_map_ext. intros k _. unfold spec_surface. cbn [fst snd]. ring. }
  assert (HL : 0 < inject_Z (Z.of_nat N)).
  { unfold Qlt. simpl. lia. }
  split.
  - unfold sample_mean_spec. rewrite Hpts, Hlen, Hsum. field.
    intros E. rewrite E in HL. exact (Qlt_irrefl _ HL).
  - assert (B : forall q, In q zs -> 0 <= q /\ q <= 2).
    { intros q Hq. unfold zs in Hq. apply in_map_iff in Hq.
      destruct Hq as [k [Hk _]].
      destruct (Hg (consumed g + k)%nat) as [Hx0 Hx1].
      destruct (Hg (consumed g + N + k)%nat) as [Hy0 Hy1].
      destruct (unit_square_bounds Hx0 Hx1 Hy0 Hy1) as [B0 B2].
      unfold spec_surface in B0, B2.
      rewrite <- Hk. split.
      - eapply Qle_trans; [exact B0|]. apply Qle_lteq. right. ring.
      - eapply Qle_trans; [|exact B2]. apply Qle_lteq. right. ring. }
    destruct (@Qsum_bounds 0 2 zs B) as [S0 S2]. rewrite Hlen in S0, S2 |- *.
    split.
    + rewrite Qmult_1_r. apply Qle_shift_div_l; [exact HL|].
      eapply Qle_trans; [|exact S0]. apply Qle_lteq. right. ring.
    + rewrite Qmult_1_r. apply Qle_shift_div_r; [exact HL|].
      eapply Qle_trans; [exact S2|]. apply Qle_lteq. right. ring.
Qed.

(** A generator whose samples cycle through 0, 1/4, 1/2, 3/4. *)
Lemma quarters_unit_samples :
  unit_samples {| samples := fun k => inject_Z (Z.of_nat (k mod 4)) / 4;
                  consumed := 0 |}.
Proof.
  intros k. cbn [samples].
  assert (Hk : (k mod 4 < 4)%nat) by (apply Nat.mod_upper_bound; lia).
  destruct (k mod 4)%nat as [|[|[|[|r]]]]; try lia; split; vm_compute; congruence.
Qed.

Lemma monte_carlo_sample_mean_at_3 :
  let g := {| samples := fun k => inject_Z (Z.of_nat (k mod 4)) / 4;
              consumed := 0 |} in
  (1 <= 3)%Z
  /\ unit_samples g
  /\ exists v : Q,
       fst (monte_carlo_integration 3 g) = Ok (np_val v)
       /\ List.length (drawn_points g (Z.to_nat 3)) = Z.to_nat 3
       /\ v == sample_mean_spec (drawn_points g (Z.to_nat 3))
       /\ 0 <= v /\ v <= 2.
Proof.
  intros g. split; [lia|]. split; [exact quarters_unit_samples|].
  apply (@monte_carlo_sample_mean 3 g); [lia | exact quarters_unit_samples].
Defined.

(** ** Determinism *)

Section Runs.
Context {F : Type} `{PyFloat F}.
Variable n : Z.

(** No statement has two possible effects. *)
Lemma riemann_step_deterministic (s a b : riemann_state F) :
  riemann_step n s a -> riemann_step n s b -> a = b.
Proof.
  intros Ha Hb.
  destruct Ha; inversion Hb; subst; try reflexivity; try lia; congruence.
Qed.

Lemma finished_stuck (s s' : riemann_state F) :
  finished s -> ~ riemann_step n s s'.
Proof. intros Hs Hstep. destruct Hstep; exact Hs. Qed.

(** Two runs from the same state that are both over ended in the same
    state. *)
Lemma steps_confluent (s a b : riemann_state F) :
  riemann_steps n s a -> finished a -> riemann_steps n s b -> finished b -> a = b.
Proof.
  intros Ha. revert b.
  induction Ha as [s|s s1 a Hs1 Ha IH]; intros b Fa Hb Fb.
  - inversion Hb as [|? s2 ? Hs2 Hb']; subst; [reflexivity|].
    exfalso. exact (finished_stuck Fa Hs2).
  - inversion Hb as [|? s2 ? Hs2 Hb']; subst.
    + exfalso. exact (finished_stuck Fb Hs1).
    + rewrite (riemann_step_deterministic Hs2 Hs1) in Hb'. now apply IH.
Qed.

Lemma steps_trans (a b c : riemann_state F) :
  riemann_steps n a b -> riemann_steps n b c -> riemann_steps n a c.
Proof.
  intros Hab Hbc. induction Hab as [|a a' b Ha Hab IH]; [exact Hbc|].
  eapply steps_next; [exact Ha | now apply IH].
Qed.

Lemma steps_one (a b : riemann_state F) : riemann_step n a b -> riemann_steps n a b.
Proof. intros Hab. eapply steps_next; [exact Hab | apply steps_done]. Qed.

(** Lines 38-40 for one pair of indices, against [riemann_body]. *)
Lemma body_steps (dx dy : F) (volume : pynum F) (i j : Z) :
  (j < n)%Z ->
  riemann_steps n (AtInner dx dy volume i j)
        (match riemann_body dx dy i j volume with
         | Ok volume' => AtInner dx dy volume' i (j + 1)
         | Raise e => Raised e
         end).
Proof.
  intros Hj. unfold riemann_body.
  destruct (float_of_int i) as [i'|e] eqn:Ei; cbn [bind];
    [|apply steps_one; now apply step_inner_raise].
  eapply steps_next; [now apply step_inner_next; eassumption|].
  destruct (float_of_int j) as [j'|e] eqn:Ej; cbn [bind];
    [|apply steps_one; now apply step_y_raise].
  eapply steps_next; [now apply step_y; eassumption|].
  destruct (surface_function _ _) as [z|e] eqn:Ez; cbn [bind];
    [|apply steps_one; now apply step_update_raise_call].
  destruct (to_float volume) as [v|e] eqn:Ev; cbn [bind].
  - apply steps_one. now apply step_update with (z := z).
  - apply steps_one. now apply step_update_raise_add with (z := z).
Qed.

(** The inner loop from index [j] on, against [for_]. *)
Lemma inner_steps (dx dy : F) (i : Z) (k : nat) :
  forall (j : nat) (volume : pynum F),
    (Z.of_nat j + Z.of_nat k = n)%Z ->
    riemann_steps n (AtInner dx dy volume i (Z.of_nat j))
          (match for_ (map Z.of_nat (seq j k))
                      (fun j volume => riemann_body dx dy i j volume) volume with
           | Ok volume' => AtOuter dx dy volume' (i + 1)
           | Raise e => Raised e
           end).
Proof.
  induction k as [|k IH]; intros j volume Hk.
  - cbn [seq map for_]. apply steps_one. apply step_inner_exit. lia.
  - cbn [seq map for_].
    eapply steps_trans; [apply body_steps; lia|].
    destruct (riemann_body dx dy i (Z.of_nat j) volume) as [volume'|e]; cbn [bind].
    + replace (Z.of_nat j + 1)%Z with (Z.of_nat (S j)) by lia.
      apply IH. lia.
    + apply steps_done.
Qed.

(** The outer loop from index [i] on, against [for_]. *)
Lemma outer_steps (dx dy : F) (k : nat) :
  forall (i : nat) (volume : pynum F),
    (Z.of_nat i + Z.of_nat k = n)%Z ->
    riemann_steps n (AtOuter dx dy volume (Z.of_nat i))
          (outcome_state
             (for_ (map Z.of_nat (seq i k))
                   (fun i volume =>
                      for_ (range n) (fun j volume => riemann_body dx dy i j volume)
                           volume)
                   volume)).
Proof.
  induction k as [|k IH]; intros i volume Hk.
  - cbn [seq map for_ outcome_state]. apply steps_one. apply step_outer_exit. lia.
  - cbn [seq map for_].
    eapply steps_next; [apply step_outer_next; lia|].
    eapply steps_trans.
    { apply (inner_steps dx dy (Z.of_nat i) (Z.to_nat n) 0 volume). lia. }
    fold (range n).
    destruct (for_ (range n) _ volume) as [volume'|e]; cbn [bind outcome_state].
    + replace (Z.of_nat i + 1)%Z with (Z.of_nat (S i)) by lia.
      apply IH. lia.
    + apply steps_done.
Qed.

(** The statements, run one after the other, end where the function
    says. *)
Lemma riemann_run_function :
  riemann_run n (outcome_state (numerical_integration_riemann n)).
Proof.
  split; [|destruct (numerical_integration_riemann n); exact I].
  unfold numerical_integration_riemann.
  destruct (riemann_cell_width n) as [dx|e] eqn:Ew; cbn [bind outcome_state];
    [|apply steps_one; now apply step_width_raise].
  eapply steps_next; [now apply step_width; eassumption|].
  unfold riemann_loops.
  destruct (Z.le_gt_cases 0 n) as [Hn|Hn].
  - apply (outer_steps dx dx (Z.to_nat n) 0 (PyInt 0)). lia.
  - rewrite range_nonpositive by lia. cbn [for_ outcome_state].
    apply steps_one. apply step_outer_exit. lia.
Qed.

End Runs.

(** A run that has not finished yet can only go on to the state in
    which the complete run ends. *)
Lemma steps_reach_end {F : Type} `{PyFloat F} (n : Z) (a s f : riemann_state F) :
  riemann_steps n a s -> riemann_steps n a f -> finished f -> riemann_steps n s f.
Proof.
  intros Has. revert f. induction Has as [a|a a1 s Ha1 Has IH]; intros f Haf Ff.
  - exact Haf.
  - inversion Haf as [|? a2 ? Ha2 Haf']; subst.
    + exfalso. exact (finished_stuck Ff Ha1).
    + apply IH; [|exact Ff].
      now rewrite (riemann_step_deterministic Ha1 Ha2).
Qed.

(** C6. [riemann(n)] is deterministic. Lines 33-42 are run statement by
    statement: whatever the float arithmetic and whatever [n], two
    complete runs of a call end in the same state, so two calls that return
    return identical values; every run, however far it has got, goes on to
    that one end, which is the result of [numerical_integration_riemann];
    no run goes on for ever. The Monte Carlo estimate is not
    deterministic: two states of the generator give two different
    values. *)
Theorem riemann_deterministic {F : Type} `{PyFloat F} (n : Z) :
  (forall s1 s2 : riemann_state F,
      riemann_run n s1 -> riemann_run n s2 -> s1 = s2)
  /\ (forall v1 v2 : pynum F,
         riemann_run n (Returned v1) -> riemann_run n (Returned v2) -> v1 = v2)
  /\ riemann_run n (outcome_state (numerical_integration_riemann n))
  /\ (forall s : riemann_state F,
         riemann_steps n AtWidth s ->
         riemann_steps n s (outcome_state (numerical_integration_riemann n)))
  /\ (exists (k : Z) (h1 h2 : rng_state) (v1 v2 : Q),
         unit_samples h1 /\ unit_samples h2
         /\ fst (monte_carlo_integration k h1) = Ok (np_val v1)
         /\ fst (monte_carlo_integration k h2) = Ok (np_val v2)
         /\ ~ v1 == v2).
Proof.
  assert (Hsame : forall s1 s2 : riemann_state F,
             riemann_run n s1 -> riemann_run n s2 -> s1 = s2).
  { intros s1 s2 [R1 F1] [R2 F2]. exact (steps_confluent R1 F1 R2 F2). }
  split; [exact Hsame|]. split.
  - intros v1 v2 R1 R2. assert (E := Hsame _ _ R1 R2). now injection E.
  - split; [apply riemann_run_function|]. split.
    + intros s Hs. destruct (riemann_run_function (F := F) n) as [Hf Ff].
      exact (steps_reach_end Hs Hf Ff).
    + exists 1%Z,
        {| samples := fun _ => 0; consumed := 0 |},
        {| samples := fun _ => 1 # 2; consumed := 0 |}.
      eexists. eexists.
      split; [intros k; split; vm_compute; congruence|].
      split; [intros k; split; vm_compute; congruence|].
      split; [vm_compute; reflexivity|].
      split; [vm_compute; reflexivity|].
      vm_compute. discriminate.
Qed.

Lemma riemann_deterministic_two_runs :
  riemann_run (F := spec_float) 1 (Returned (PyFlt half))
  /\ riemann_run (F := spec_float) 1 (Returned (PyFlt half))
  /\ Returned (PyFlt (half : spec_float)) = Returned (PyFlt half)
  /\ PyFlt (half : spec_float) = PyFlt half.
Proof.
  assert (R : riemann_run (F := spec_float) 1 (Returned (PyFlt half))).
  { change (Returned (PyFlt (half : spec_float)))
      with (outcome_state (numerical_integration_riemann (F := spec_float) 1)).
    apply riemann_run_function. }
  split; [exact R|]. split; [exact R|]. split.
  - exact (proj1 (@riemann_deterministic spec_float _ 1) _ _ R R).
  - exact (proj1 (proj2 (@riemann_deterministic spec_float _ 1)) _ _ R R).
Defined.

(** A run of the 1×1 grid, statement by statement, in binary64. *)
Example riemann_run_one_cell :
  riemann_steps (F := spec_float) 1 AtWidth (AtOuter one one (PyInt 0) 0)
  /\ riemann_steps 1 (AtOuter one one (PyInt 0) 0)
                   (AtUpdate one one (PyInt 0) 0 0 half half)
  /\ riemann_steps 1 (AtUpdate one one (PyInt 0) 0 0 half half)
                   (AtInner one one (PyFlt (half : spec_float)) 0 1)
  /\ riemann_steps 1 (AtInner one one (PyFlt (half : spec_float)) 0 1)
                   (Returned (PyFlt half)).
Proof.
  split; [apply steps_one; now apply step_width|].
  split.
  - apply steps_next with (s1 := AtInner one one (PyInt 0) 0 0);
      [apply step_outer_next; lia|].
    apply steps_next with (s1 := AtY one one (PyInt 0) 0 0 half).
    + exact (@step_inner_next spec_float _ 1 one one (PyInt 0) 0 0
               (S754_zero false) eq_refl eq_refl).
    + apply steps_one.
      exact (@step_y spec_float _ 1 one one (PyInt 0) 0 0 half
               (S754_zero false) eq_refl).
  - split.
    + apply steps_one.
      exact (@step_update spec_float _ 1 one one (PyInt 0) 0 0 half half half
               (S754_zero false) eq_refl eq_refl).
    + apply steps_next with (s1 := AtOuter one one (PyFlt half) 1);
        [apply step_inner_exit; lia|].
      apply steps_one. apply step_outer_exit. lia.
Qed.

(** ** The convergence table in exact arithmetic *)

Lemma convergence_row_Q (a : Q) (n : Z) :
  (1 <= n)%Z -> exists row, convergence_row a n = Ok row.
Proof.
  intros Hn. destruct (riemann_Q_closed Hn) as [v [Rv _]].
  unfold convergence_row. rewrite Rv. eexists. reflexivity.
Qed.

Lemma table_Q (a : Q) (l : list Z) (acc : list (Z * pynum Q * Q)) :
  Forall (fun n => (1 <= n)%Z) l ->
  exists rows,
    for_ l
      (fun n rows =>
         row <- convergence_row a n ;;
         Ok (rows ++ [(n, fst row, snd row)]))
      acc
    = Ok rows.
Proof.
  intros Hl. revert acc. induction Hl as [|n l Hn Hl IH]; intros acc.
  - now exists acc.
  - cbn [for_]. destruct (convergence_row_Q a Hn) as [row Hrow].
    rewrite Hrow. cbn [bind]. apply IH.
Qed.

(** ** Division by zero *)

Lemma riemann_fails_at_width {F : Type} `{PyFloat F} (n : Z) (e : PyError) :
  riemann_cell_width n = Raise e -> numerical_integration_riemann n = Raise e.
Proof.
  intros E. unfold numerical_integration_riemann. now rewrite E.
Qed.

(** *** Rounding never turns a nonzero integer into zero *)

Section Rounding.
Local Open Scope Z_scope.

Lemma digits2_pos_lower (p : positive) :
2 ^ (Zpos (digits2_pos p) - 1) <= Zpos p.
Proof.
induction p as [p IH|p IH|]; cbn [digits2_pos].
- rewrite Pos2Z.inj_succ.
  replace (Z.succ (Zpos (digits2_pos p)) - 1) with (Z.succ (Zpos (digits2_pos p) - 1)) by lia.
  rewrite Z.pow_succ_r by lia. lia.
- rewrite Pos2Z.inj_succ.
  replace (Z.succ (Zpos (digits2_pos p)) - 1) with (Z.succ (Zpos (digits2_pos p) - 1)) by lia.
  rewrite Z.pow_succ_r by lia. lia.
- simpl. lia.
Qed.

Lemma shr_1_m (mrs : shr_record) :
0 <= shr_m mrs -> shr_m (shr_1 mrs) = shr_m mrs / 2.
Proof.
destruct mrs as [m r s]. cbn [shr_m]. intros Hm.
destruct m as [|[p|p|]|p]; cbn [shr_1 shr_m]; try lia; try reflexivity.
- change (Z.pos p~1) with (2 * Z.pos p + 1). apply Z.div_unique with (r := 1); lia.
- change (Z.pos p~0) with (2 * Z.pos p). apply Z.div_unique with (r := 0); lia.
Qed.

Lemma iter_shr_1_m (p : positive) (mrs : shr_record) :
0 <= shr_m mrs ->
shr_m (iter_pos shr_1 p mrs) = shr_m mrs / 2 ^ Zpos p.
Proof.
revert mrs; induction p as [p IH|p IH|]; intros mrs Hm; cbn [iter_pos].
- assert (H1 : 0 <= shr_m (shr_1 mrs)) by (rewrite shr_1_m by lia; apply Z.div_pos; lia).
  assert (H2 : 0 <= shr_m (iter_pos shr_1 p (shr_1 mrs)))
    by (rewrite IH by lia; apply Z.div_pos; lia).
  rewrite IH, IH, shr_1_m by lia.
  rewrite !Z.div_div by lia.
  assert (E : 2 ^ Zpos p~1 = 2 * 2 ^ Zpos p * 2 ^ Zpos p).
  { rewrite <- Z.pow_succ_r, <- Z.pow_add_r by lia. f_equal. lia. }
  rewrite E. f_equal. ring.
- assert (H2 : 0 <= shr_m (iter_pos shr_1 p mrs))
    by (rewrite IH by lia; apply Z.div_pos; lia).
  rewrite IH, IH by lia.
  rewrite !Z.div_div by lia.
  assert (E : 2 ^ Zpos p~0 = 2 ^ Zpos p * 2 ^ Zpos p).
  { rewrite <- Z.pow_add_r by lia. f_equal. lia. }
  rewrite E. f_equal.
- rewrite shr_1_m by lia. reflexivity.
Qed.

Lemma shr_record_of_loc_m (m : Z) (l : location) :
shr_m (shr_record_of_loc m l) = m.
Proof. destruct l as [|[ | | ]]; reflexivity. Qed.

(** A right shift to the format's exponent keeps a positive mantissa
  positive, as long as the exponent is not below the smallest one. *)
Lemma shr_fexp_positive (m e : Z) (l : location) :
0 < m -> SpecFloat.emin B64.prec B64.emax <= e ->
0 < shr_m (fst (shr_fexp B64.prec B64.emax m e l))
/\ e <= snd (shr_fexp B64.prec B64.emax m e l).
Proof.
intros Hm He. unfold shr_fexp, shr, fexp, SpecFloat.emin, B64.prec, B64.emax in *.
destruct m as [|p|p]; try lia. cbn [Zdigits2].
assert (Hd := digits2_pos_lower p).
assert (Hd1 : 0 < Zpos (digits2_pos p)) by lia.
set (d := Zpos (digits2_pos p)) in *.
destruct (Z.max (d + e - 53) (3 - 1024 - 53) - e) as [|n|n] eqn:En; cbn [fst snd].
- rewrite shr_record_of_loc_m. lia.
- rewrite iter_shr_1_m by (rewrite shr_record_of_loc_m; lia).
  rewrite shr_record_of_loc_m. split; [|lia].
  apply Z.div_str_pos. split; [apply Z.pow_pos_nonneg; lia|].
  eapply Z.le_trans; [|exact Hd].
  apply Z.pow_le_mono_r; lia.
- rewrite shr_record_of_loc_m. lia.
Qed.

Lemma round_nearest_even_positive (m : Z) (l : location) :
0 < m -> 0 < round_nearest_even m l.
Proof.
intros Hm. destruct l as [|[ | | ]]; cbn [round_nearest_even]; try lia.
destruct (Z.even m); lia.
Qed.

Lemma binary_round_aux_nonzero (s : bool) (m e : Z) (l : location) :
0 < m -> SpecFloat.emin B64.prec B64.emax <= e ->
B64.is_zero (binary_round_aux B64.prec B64.emax s m e l) = false.
Proof.
intros Hm He. unfold binary_round_aux.
destruct (shr_fexp_positive l Hm He) as [H1 H1e].
destruct (shr_fexp B64.prec B64.emax m e l) as [mrs' e']. cbn [fst snd] in H1, H1e.
assert (Hr := round_nearest_even_positive (loc_of_shr_record mrs') H1).
assert (He' : SpecFloat.emin B64.prec B64.emax <= e') by lia.
destruct (shr_fexp_positive loc_Exact Hr He') as [H2 _].
destruct (shr_fexp B64.prec B64.emax _ e' loc_Exact) as [mrs'' e''].
cbn [fst] in H2.
destruct (shr_m mrs'') as [|q|q]; try lia.
destruct (e'' <=? B64.emax - B64.prec); reflexivity.
Qed.

Lemma binary_round_nonzero (s : bool) (p : positive) :
B64.is_zero (binary_round B64.prec B64.emax s p 0) = false.
Proof.
unfold binary_round, shl_align.
assert (Hd : 0 < Zpos (digits2_pos p)) by lia.
set (d := Zpos (digits2_pos p)) in *.
assert (Hf : fexp B64.prec B64.emax (d + 0) = d - 53)
  by (unfold fexp, SpecFloat.emin, B64.prec, B64.emax; lia).
rewrite Hf.
destruct (d - 53 - 0) as [|n|n] eqn:En.
- apply binary_round_aux_nonzero; [lia | unfold SpecFloat.emin, B64.prec, B64.emax; lia].
- apply binary_round_aux_nonzero; [lia | unfold SpecFloat.emin, B64.prec, B64.emax; lia].
- apply binary_round_aux_nonzero; [lia | unfold SpecFloat.emin, B64.prec, B64.emax; lia].
Qed.

(** [float(n)] of a nonzero [int] is a nonzero double, unless it
  overflows. *)
Lemma of_int_nonzero (n : Z) :
n <> 0 ->
B64.of_int n = Raise OverflowError
\/ exists x, B64.of_int n = Ok x /\ B64.is_zero x = false.
Proof.
intros Hn. unfold B64.of_int.
destruct (B64.is_infinity (binary_normalize B64.prec B64.emax n 0 false)) eqn:E.
- now left.
- right. eexists. split; [reflexivity|].
  destruct n as [|p|p]; [contradiction| |]; apply binary_round_nonzero.
Qed.

End Rounding.

(** *** The only exception of the binary64 loops is [OverflowError] *)

Lemma for_raises {A S : Type} (P : PyError -> Prop) (l : list A)
      (body : A -> S -> result S) :
  (forall a s e, body a s = Raise e -> P e) ->
  forall s e, for_ l body s = Raise e -> P e.
Proof.
  intros Hb. induction l as [|a l IH]; intros s e E; [discriminate|].
  cbn [for_] in E. destruct (body a s) as [s'|e'] eqn:B; cbn [bind] in E.
  - exact (IH _ _ E).
  - injection E as <-. exact (Hb _ _ _ B).
Qed.

Lemma of_int_raises (z : Z) (e : PyError) :
  B64.of_int z = Raise e -> e = OverflowError.
Proof.
  unfold B64.of_int.
  destruct (B64.is_infinity _); [|discriminate]. now intros [= <-].
Qed.

Lemma square_raises (x : spec_float) (e : PyError) :
  B64.square x = Raise e -> e = OverflowError.
Proof.
  unfold B64.square.
  destruct (_ && _); [|discriminate]. now intros [= <-].
Qed.

Lemma riemann_body_raises (dx dy : spec_float) (i j : Z)
      (volume : pynum spec_float) (e : PyError) :
  riemann_body dx dy i j volume = Raise e -> e = OverflowError.
Proof.
  unfold riemann_body, surface_function. cbn [float_of_int fsquare PyFloat_B64].
  destruct (B64.of_int i) as [i'|ei] eqn:Ei; cbn [bind];
    [|intros E; injection E as <-; exact (of_int_raises _ Ei)].
  destruct (B64.of_int j) as [j'|ej] eqn:Ej; cbn [bind];
    [|intros E; injection E as <-; exact (of_int_raises _ Ej)].
  match goal with
  | |- context [B64.square ?x] => destruct (B64.square x) as [x2|ex] eqn:Ex
  end; cbn [bind];
    [|intros E; injection E as <-; exact (square_raises _ Ex)].
  match goal with
  | |- context [B64.square ?y] => destruct (B64.square y) as [y2|ey] eqn:Ey
  end; cbn [bind];
    [|intros E; injection E as <-; exact (square_raises _ Ey)].
  destruct volume as [z|f]; cbn [to_float float_of_int PyFloat_B64].
  - destruct (B64.of_int z) as [v|ev] eqn:Ev; cbn [bind];
      [discriminate | intros E; injection E as <-; exact (of_int_raises _ Ev)].
  - discriminate.
Qed.

Lemma riemann_loops_raises (n : Z) (dx dy : spec_float) (e : PyError) :
  riemann_loops n dx dy = Raise e -> e = OverflowError.
Proof.
  unfold riemann_loops.
  apply (for_raises (fun e => e = OverflowError)).
  intros i s e'.
  apply (for_raises (fun e => e = OverflowError)).
  intros j s'. apply riemann_body_raises.
Qed.

Lemma riemann_cell_width_B64 (n : Z) :
  n <> 0%Z ->
  riemann_cell_width (F := spec_float) n = Raise OverflowError
  \/ exists dx : spec_float, riemann_cell_width n = Ok dx.
Proof.
  intros Hn. unfold riemann_cell_width. cbn [float_of_int fdiv PyFloat_B64].
  destruct (of_int_nonzero Hn) as [E|[x [E Z]]]; rewrite E; cbn [bind].
  - now left.
  - right. unfold B64.div. rewrite Z. eexists. reflexivity.
Qed.

Lemma riemann_B64_raises (n : Z) (e : PyError) :
  n <> 0%Z ->
  numerical_integration_riemann (F := spec_float) n = Raise e ->
  e = OverflowError.
Proof.
  intros Hn. unfold numerical_integration_riemann.
  destruct (riemann_cell_width_B64 Hn) as [E|[dx E]]; rewrite E; cbn [bind].
  - now intros [= <-].
  - apply riemann_loops_raises.
Qed.

(** C10. [riemann(0)] fails with a division-by-zero error at the cell
    width [dx = 1.0/n], before the loops are entered; for every n >= 1 the
    divisor is not zero, the width is computed and the division-by-zero
    branch is not taken. *)
Theorem riemann_zero_division :
  (riemann_cell_width (F := Q) 0 = Raise ZeroDivisionError
   /\ numerical_integration_riemann (F := Q) 0 = Raise ZeroDivisionError
   /\ riemann_cell_width (F := spec_float) 0 = Raise ZeroDivisionError
   /\ numerical_integration_riemann (F := spec_float) 0 = Raise ZeroDivisionError)
  /\ (forall (F : Type) (PF : PyFloat F) (n : Z) (e : PyError),
         riemann_cell_width n = Raise e -> numerical_integration_riemann n = Raise e)
  /\ (forall n : Z,
         (1 <= n)%Z ->
         riemann_cell_width (F := Q) n = Ok (1 / inject_Z n)
         /\ (exists v : Q, numerical_integration_riemann n = Ok (PyFlt v))
         /\ riemann_cell_width (F := spec_float) n <> Raise ZeroDivisionError
         /\ numerical_integration_riemann (F := spec_float) n
            <> Raise ZeroDivisionError).
Proof.
  split; [repeat split; reflexivity|].
  split; [intros F PF n e; apply riemann_fails_at_width|].
  intros n Hn. assert (Hn0 : n <> 0%Z) by lia.
  split; [now apply riemann_cell_width_Q|].
  split.
  - destruct (riemann_Q_closed Hn) as [v [Rv _]]. now exists v.
  - split.
    + destruct (riemann_cell_width_B64 Hn0) as [E|[dx E]]; rewrite E; discriminate.
    + intros E. apply riemann_B64_raises in E; [discriminate | exact Hn0].
Qed.

Lemma riemann_zero_division_at_10 :
  (1 <= 10)%Z
  /\ riemann_cell_width (F := Q) 10 = Ok (1 / inject_Z 10)
  /\ (exists v : Q, numerical_integration_riemann 10 = Ok (PyFlt v))
  /\ riemann_cell_width (F := spec_float) 10 <> Raise ZeroDivisionError
  /\ numerical_integration_riemann (F := spec_float) 10 <> Raise ZeroDivisionError.
Proof.
  split; [lia|].
  apply (proj2 (proj2 riemann_zero_division) 10%Z). lia.
Defined.

(** Beyond the range of doubles the width fails differently: the
    conversion of [n] overflows. *)
Example riemann_cell_width_overflow :
  riemann_cell_width (F := spec_float) (2 ^ 1024)%Z = Raise OverflowError.
Proof. vm_compute. reflexivity. Qed.

(** * Further properties of the code *)

(** ** What [numerical_integration_riemann] returns and when it fails *)

Section ResultKind.
Context {F : Type} `{PyFloat F}.

Lemma riemann_body_float (dx dy : F) (i j : Z) (volume r : pynum F) :
  riemann_body dx dy i j volume = Ok r -> exists f : F, r = PyFlt f.
Proof.
  unfold riemann_body.
  destruct (float_of_int i) as [i'|]; [|discriminate]. cbn [bind].
  destruct (float_of_int j) as [j'|]; [|discriminate]. cbn [bind].
  destruct (surface_function _ _) as [z|]; [|discriminate]. cbn [bind].
  destruct (to_float volume) as [v|]; [|discriminate]. cbn [bind].
  intros E. injection E as <-. eexists. reflexivity.
Qed.

Lemma inner_loop_float (dx dy : F) (i : Z) (l : list Z) (s r : pynum F) :
  for_ l (fun j volume => riemann_body dx dy i j volume) s = Ok r ->
  l <> [] \/ (exists f, s = PyFlt f) ->
  exists f : F, r = PyFlt f.
Proof.
  revert s; induction l as [|j l IH]; intros s E Hs.
  - injection E as <-. destruct Hs as [Hl|Hs]; [contradiction | exact Hs].
  - cbn [for_] in E.
    destruct (riemann_body dx dy i j s) as [s'|] eqn:B; [|discriminate].
    cbn [bind] in E. apply (IH _ E). right.
    eapply riemann_body_float. exact B.
Qed.

Lemma outer_loop_float (dx dy : F) (li lo : list Z) (s r : pynum F) :
  for_ lo
    (fun i volume => for_ li (fun j volume => riemann_body dx dy i j volume) volume) s
  = Ok r ->
  (lo <> [] /\ li <> []) \/ (exists f, s = PyFlt f) ->
  exists f : F, r = PyFlt f.
Proof.
  revert s; induction lo as [|i lo IH]; intros s E Hs.
  - injection E as <-. destruct Hs as [[Hl _]|Hs]; [contradiction | exact Hs].
  - cbn [for_] in E.
    destruct (for_ li _ s) as [s'|] eqn:B; [|discriminate].
    cbn [bind] in E. apply (IH _ E). right.
    eapply inner_loop_float; [exact B|].
    destruct Hs as [[_ Hl]|Hs]; [now left | now right].
Qed.

End ResultKind.

(** X1. Whatever the float arithmetic, when [numerical_integration_riemann]
    returns, the value is a [float] if n >= 1 (the accumulator was
    converted by the first [+=]) and the untouched [int] 0 if n <= 0 (both
    loops are empty). *)
Theorem riemann_result_kind {F : Type} `{PyFloat F} (n : Z) (v : pynum F) :
  numerical_integration_riemann n = Ok v ->
  ((1 <= n)%Z -> exists f : F, v = PyFlt f)
  /\ ((n <= 0)%Z -> v = PyInt 0).
Proof.
  unfold numerical_integration_riemann.
  destruct (riemann_cell_width n) as [dx|]; [|discriminate]. cbn [bind].
  unfold riemann_loops. intros E. split; intros Hn.
  - eapply outer_loop_float; [exact E|]. left.
    split; now apply range_nonempty.
  - rewrite range_nonpositive in E by exact Hn. now injection E as <-.
Qed.

Lemma riemann_result_kind_at_2 :
  exists v : pynum Q,
    numerical_integration_riemann 2 = Ok v
    /\ ((1 <= 2)%Z -> exists f : Q, v = PyFlt f)
    /\ ((2 <= 0)%Z -> v = PyInt 0).
Proof.
  eexists. split; [vm_compute; reflexivity|].
  apply (@riemann_result_kind Q _ 2). vm_compute. reflexivity.
Defined.

(** X2. A negative [n] is not an error: the width 1.0/n is computed, no
    cell is visited and the [int] 0 is returned. In binary64 the only
    other outcome is the [OverflowError] of [float(n)]. *)
Theorem riemann_negative_grid (n : Z) :
  (n < 0)%Z ->
  numerical_integration_riemann (F := Q) n = Ok (PyInt 0)
  /\ (numerical_integration_riemann (F := spec_float) n = Ok (PyInt 0)
      \/ numerical_integration_riemann (F := spec_float) n = Raise OverflowError).
Proof.
  intros Hn. split; [now apply riemann_negative|].
  unfold numerical_integration_riemann.
  assert (Hn0 : n <> 0%Z) by lia.
  destruct (riemann_cell_width_B64 Hn0) as [E|[dx E]]; rewrite E; cbn [bind].
  - now right.
  - left. unfold riemann_loops. rewrite range_nonpositive by lia. reflexivity.
Qed.

Lemma riemann_negative_grid_at_minus_3 :
  (-3 < 0)%Z
  /\ numerical_integration_riemann (F := Q) (-3) = Ok (PyInt 0)
  /\ (numerical_integration_riemann (F := spec_float) (-3) = Ok (PyInt 0)
      \/ numerical_integration_riemann (F := spec_float) (-3) = Raise OverflowError).
Proof.
  split; [lia|]. apply (@riemann_negative_grid (-3)). lia.
Defined.

(** X3. The exceptions of [numerical_integration_riemann]: in exact
    arithmetic the call fails exactly when n = 0, with
    [ZeroDivisionError]; in binary64 [ZeroDivisionError] is raised exactly
    when n = 0 and the only other exception is [OverflowError]. *)
Theorem riemann_failures (n : Z) (e : PyError) :
  (numerical_integration_riemann (F := Q) n = Raise e
   <-> n = 0%Z /\ e = ZeroDivisionError)
  /\ (numerical_integration_riemann (F := spec_float) n = Raise ZeroDivisionError
      <-> n = 0%Z)
  /\ (numerical_integration_riemann (F := spec_float) n = Raise e ->
      e = ZeroDivisionError \/ e = OverflowError).
Proof.
  split; [|split].
  - split.
    + intros E. destruct (Z.lt_trichotomy n 0) as [Hn|[Hn|Hn]].
      * rewrite riemann_negative in E by exact Hn. discriminate.
      * subst n. split; [reflexivity|].
        change (numerical_integration_riemann (F := Q) 0)
          with (@Raise (pynum Q) ZeroDivisionError) in E.
        now injection E.
      * assert (H1 : (1 <= n)%Z) by lia.
        destruct (riemann_Q_closed H1) as [v [Rv _]]. rewrite Rv in E. discriminate.
    + intros [-> ->]. reflexivity.
  - split.
    + intros E. destruct (Z.eq_dec n 0) as [Hn|Hn]; [exact Hn|].
      apply riemann_B64_raises in E; [discriminate | exact Hn].
    + intros ->. reflexivity.
  - intros E. destruct (Z.eq_dec n 0) as [Hn|Hn].
    + subst n.
      change (numerical_integration_riemann (F := spec_float) 0)
        with (@Raise (pynum spec_float) ZeroDivisionError) in E.
      left. now injection E.
    + right. exact (riemann_B64_raises Hn E).
Qed.

(** X4. In exact arithmetic the error that [main] reports for an n×n grid
    is exactly 1/(6 n²): it is strictly smaller on every finer grid, and
    doubling n divides it by four. *)
Theorem riemann_error_rate (n m : Z) :
  (1 <= n)%Z -> (n < m)%Z ->
  exists en em e2 : Q,
    riemann_error n = Ok en
    /\ riemann_error m = Ok em
    /\ riemann_error (2 * n) = Ok e2
    /\ en == 1 / (6 * inject_Z n ^ 2)
    /\ em < en
    /\ e2 == en / 4.
Proof.
  intros Hn Hm.
  assert (Hm1 : (1 <= m)%Z) by lia.
  assert (H2n : (1 <= 2 * n)%Z) by lia.
  destruct (riemann_error_Q Hn) as [en [Rn En]].
  destruct (riemann_error_Q Hm1) as [em [Rm Em]].
  destruct (riemann_error_Q H2n) as [e2 [R2 E2]].
  exists en, em, e2. repeat split; try assumption.
  - rewrite En, Em. now apply closed_form_error_decreasing.
  - rewrite E2, En. rewrite inject_Z_mult. field.
    apply inject_Z_neq0. lia.
Qed.

Lemma riemann_error_rate_at_1_3 :
  (1 <= 1)%Z /\ (1 < 3)%Z
  /\ exists en em e2 : Q,
       riemann_error 1 = Ok en
       /\ riemann_error 3 = Ok em
       /\ riemann_error (2 * 1) = Ok e2
       /\ en == 1 / (6 * inject_Z 1 ^ 2)
       /\ em < en
       /\ e2 == en / 4.
Proof.
  split; [lia|]. split; [lia|]. apply (@riemann_error_rate 1 3); lia.
Defined.

(** ** The integrand *)

(** X5. In exact arithmetic [surface_function] never raises; its value
    is never negative, is zero only at the origin, does not change when
    the arguments are swapped or negated, and lies in [0, 2] on the unit
    square. *)
Theorem surface_function_exact (x y : Q) :
  exists z : Q,
    surface_function x y = Ok z
    /\ z == x * x + y * y
    /\ 0 <= z
    /\ (z == 0 <-> x == 0 /\ y == 0)
    /\ (exists z', surface_function y x = Ok z' /\ z' == z)
    /\ (exists z', surface_function (- x) (- y) = Ok z' /\ z' == z)
    /\ (0 <= x -> x <= 1 -> 0 <= y -> y <= 1 -> z <= 2).
Proof.
  exists (x ^ 2 + y ^ 2). split; [reflexivity|].
  split; [ring|]. split; [nra|]. split; [|split; [|split]].
  - split.
    + intros E. split; nra.
    + intros [Ex Ey]. rewrite Ex, Ey. reflexivity.
  - exists (y ^ 2 + x ^ 2). split; [reflexivity | ring].
  - exists ((- x) ^ 2 + (- y) ^ 2). split; [reflexivity | ring].
  - intros. nra.
Qed.

(** ** The Monte Carlo estimate and the generator *)

(** X6. A call of [monte_carlo_integration] with n_points >= 0 consumes
    exactly 2·n_points samples and leaves the rest of the sequence as it
    was; its result is determined by those samples alone: a generator that
    holds the same values at the 2·n_points positions read gives the same
    estimate. *)
Theorem monte_carlo_reads_its_window (n_points : Z) (g g' : rng_state) :
  (0 <= n_points)%Z ->
  (forall k : nat,
      (k < 2 * Z.to_nat n_points)%nat ->
      samples g (consumed g + k)%nat == samples g' (consumed g' + k)%nat) ->
  snd (monte_carlo_integration n_points g)
  = {| samples := samples g;
       consumed := (consumed g + Z.to_nat n_points + Z.to_nat n_points)%nat |}
  /\ exists v v' : np_float,
       fst (monte_carlo_integration n_points g) = Ok v
       /\ fst (monte_carlo_integration n_points g') = Ok v'
       /\ np_equiv v v'.
Proof.
  intros Hn Hw. rewrite !monte_carlo_run by exact Hn. cbn [fst snd].
  split; [reflexivity|].
  set (N := Z.to_nat n_points) in *.
  eexists. eexists. split; [reflexivity|]. split; [reflexivity|].
  destruct N as [|N'] eqn:EN.
  - exact I.
  - rewrite <- EN in *.
    set (zs := map _ (seq 0 N)).
    set (zs' := map _ (seq 0 N)).
    assert (Hne : zs <> []) by (unfold zs; rewrite EN; discriminate).
    assert (Hne' : zs' <> []) by (unfold zs'; rewrite EN; discriminate).
    rewrite (np_mean_nonempty Hne), (np_mean_nonempty Hne').
    cbn [np_times np_equiv].
    assert (Hlen : List.length zs = List.length zs')
      by (unfold zs, zs'; now rewrite !length_map).
    assert (Hsum : Qsum zs == Qsum zs').
    { unfold zs, zs'. apply Qsum_map_ext. intros k Hk.
      apply in_seq in Hk.
      rewrite (Hw k) by lia.
      rewrite <- !Nat.add_assoc. rewrite (Hw (N + k)%nat) by lia.
      reflexivity. }
    rewrite Hlen, Hsum. reflexivity.
Qed.

Lemma monte_carlo_reads_its_window_at_2 :
  let g := {| samples := fun k => inject_Z (Z.of_nat (k mod 4)) / 4; consumed := 0 |} in
  let g' := {| samples := fun k => inject_Z (Z.of_nat (k mod 4)) / 4; consumed := 4 |} in
  (0 <= 2)%Z
  /\ (forall k : nat,
         (k < 2 * Z.to_nat 2)%nat ->
         samples g (consumed g + k)%nat == samples g' (consumed g' + k)%nat)
  /\ snd (monte_carlo_integration 2 g)
     = {| samples := samples g;
          consumed := (consumed g + Z.to_nat 2 + Z.to_nat 2)%nat |}
  /\ exists v v' : np_float,
       fst (monte_carlo_integration 2 g) = Ok v
       /\ fst (monte_carlo_integration 2 g') = Ok v'
       /\ np_equiv v v'.
Proof.
  intros g g'.
  assert (Hw : forall k : nat,
             (k < 2 * Z.to_nat 2)%nat ->
             samples g (consumed g + k)%nat == samples g' (consumed g' + k)%nat).
  { intros k Hk. change (2 * Z.to_nat 2)%nat with 4%nat in Hk.
    destruct k as [|[|[|[|k]]]]; try lia; vm_compute; reflexivity. }
  split; [lia|]. split; [exact Hw|].
  apply (@monte_carlo_reads_its_window 2 g g'); [lia | exact Hw].
Defined.

(** X7. The edge cases of [monte_carlo_integration]: a negative count
    raises [ValueError] at the first draw and leaves the generator
    untouched; with no points the mean of the empty array is NaN, no
    exception is raised and no sample is consumed. *)
Theorem monte_carlo_without_samples (n_points : Z) (g : rng_state) :
  ((n_points < 0)%Z ->
   monte_carlo_integration n_points g = (Raise ValueError, g))
  /\ fst (monte_carlo_integration 0 g) = Ok np_nan
  /\ samples (snd (monte_carlo_integration 0 g)) = samples g
  /\ consumed (snd (monte_carlo_integration 0 g)) = consumed g.
Proof.
  split.
  - intros Hneg. unfold monte_carlo_integration, run_bind, np_random_uniform.
    assert (E : (n_points <? 0)%Z = true) by now apply Z.ltb_lt.
    now rewrite E.
  - split; [reflexivity|]. split; [reflexivity|].
    cbn. now rewrite !Nat.add_0_r.
Qed.

Lemma monte_carlo_without_samples_at_minus_5 :
  let g := {| samples := fun _ => 1 # 2; consumed := 7 |} in
  (-5 < 0)%Z
  /\ monte_carlo_integration (-5) g = (Raise ValueError, g).
Proof.
  intros g. split; [lia|].
  apply (proj1 (@monte_carlo_without_samples (-5) g)). lia.
Defined.

(** ** The values of [main] *)

Section Table.
Context {F : Type} `{PyFloat F}.

Lemma table_sizes (a : F) (l : list Z) (acc rows : list (Z * pynum F * F)) :
  for_ l
    (fun n rows =>
       row <- convergence_row a n ;;
       Ok (rows ++ [(n, fst row, snd row)]))
    acc
  = Ok rows ->
  map (fun r => fst (fst r)) rows = map (fun r => fst (fst r)) acc ++ l
  /\ (forall r, In r rows ->
        In r acc \/ convergence_row a (fst (fst r)) = Ok (snd (fst r), snd r)).
Proof.
  revert acc; induction l as [|k l IH]; intros acc E.
  - injection E as <-. rewrite app_nil_r. split; [reflexivity | now left].
  - cbn [for_] in E.
    destruct (convergence_row a k) as [row|] eqn:Rk; [|discriminate].
    cbn [bind] in E. destruct (IH _ E) as [Hs Hr]. split.
    + rewrite Hs, map_app, <- app_assoc. reflexivity.
    + intros r Hin. destruct (Hr r Hin) as [Hacc|Hrow]; [|right; exact Hrow].
      apply in_app_or in Hacc. destruct Hacc as [Hacc|Hlast]; [now left|].
      destruct Hlast as [Hlast|[]]. subst r.
      right. cbn [fst snd]. rewrite Rk. now destruct row.
Qed.

End Table.

Lemma analytical_solution_B64 :
  analytical_solution (F := spec_float)
  = Ok (S754_finite false 6004799503160661 (-53)).
Proof. vm_compute. reflexivity. Qed.

(** X9. In exact arithmetic [main] completes whenever the SciPy
    integrator returns: the analytical value is 2/3, the integrator's pair
    is passed through, the 100×100 Riemann volume is 2/3 - 1/60000, the
    Monte Carlo estimate is a number, the table has the five grid sizes,
    and exactly 200000 samples were consumed. When the integrator raises,
    [main] stops with that exception before anything is drawn from the
    generator, in exact arithmetic and in binary64. *)
Theorem main_estimates_outcome (p : Q * Q) (g : rng_state) (x : PyError) :
  (exists (e : estimates Q) (g' : rng_state),
      main_estimates (Ok p) g = (Ok e, g')
      /\ samples g' = samples g
      /\ Z.of_nat (consumed g') = (Z.of_nat (consumed g) + 200000)%Z
      /\ analytical_vol e = 2 # 3
      /\ scipy_vol e = fst p
      /\ scipy_error e = snd p
      /\ (exists v : Q, riemann_vol e = PyFlt v /\ v == (2 # 3) - (1 # 60000))
      /\ (exists w : Q, mc_vol e = np_val w)
      /\ map (fun r => fst (fst r)) (convergence e) = grid_sizes)
  /\ main_estimates (F := Q) (Raise x) g = (Raise x, g)
  /\ main_estimates (F := spec_float) (Raise x) g = (Raise x, g).
Proof.
  split; [|split].
  - unfold main_estimates, run_bind, call, run_ret.
    change (analytical_solution (F := Q)) with (Ok (2 # 3)).
    change (numerical_integration_scipy (Ok p)) with (Ok (fst p, snd p)).
    assert (H100 : (1 <= 100)%Z) by lia.
    destruct (riemann_Q_closed H100) as [v [Rv Ev]]. rewrite Rv.
    rewrite monte_carlo_run by lia.
    set (zs := map _ (seq 0 (Z.to_nat 100000))).
    assert (Hne : zs <> []).
    { intros E. apply (f_equal (@List.length Q)) in E. unfold zs in E.
      rewrite length_map, length_seq in E. simpl List.length in E. lia. }
    rewrite (np_mean_nonempty Hne). cbn [np_times].
    destruct (@table_Q (2 # 3) grid_sizes []) as [rows Hrows].
    { unfold grid_sizes. repeat constructor; lia. }
    destruct (@table_sizes Q _ _ _ _ _ Hrows) as [Hsizes _].
    unfold riemann_convergence. rewrite Hrows.
    eexists. eexists. split; [reflexivity|].
    cbn [samples consumed analytical_vol scipy_vol scipy_error riemann_vol
         mc_vol convergence fst snd].
    split; [reflexivity|]. split; [lia|]. split; [reflexivity|].
    split; [reflexivity|]. split; [reflexivity|].
    split.
    + exists v. split; [reflexivity|]. rewrite Ev. reflexivity.
    + split; [eexists; reflexivity | exact Hsizes].
  - reflexivity.
  - unfold main_estimates, run_bind, call. rewrite analytical_solution_B64.
    reflexivity.
Qed.

(** ** The mesh of [visualize_surface] *)

Lemma nth_map_seq (f : nat -> Q) (n i : nat) :
  (i < n)%nat -> nth i (map f (seq 0 n)) 0 = f i.
Proof.
  intros Hi. rewrite (nth_indep _ 0 (f 0%nat)) by now rewrite length_map, length_seq.
  rewrite (map_nth f (seq 0 n) 0%nat i), seq_nth by exact Hi. reflexivity.
Qed.

Lemma set_last_length (y : list Q) (v : Q) :
  y <> [] -> List.length (set_last y v) = List.length y.
Proof.
  intros Hy. unfold set_last.
  rewrite length_app. cbn [List.length].
  destruct y as [|a y]; [contradiction|].
  rewrite (app_removelast_last 0 Hy) at 2. rewrite length_app. reflexivity.
Qed.

Lemma set_last_nth (y : list Q) (v : Q) (i : nat) :
  (S i < List.length y)%nat -> nth i (set_last y v) 0 = nth i y 0.
Proof.
  intros Hi. assert (Hy : y <> []) by (destruct y; [simpl in Hi; lia | discriminate]).
  unfold set_last.
  assert (Hl : List.length (removelast y) = (List.length y - 1)%nat).
  { rewrite (app_removelast_last 0 Hy) at 2. rewrite length_app. simpl. lia. }
  rewrite app_nth1 by lia.
  rewrite (app_removelast_last 0 Hy) at 2. rewrite app_nth1 by lia. reflexivity.
Qed.

Lemma set_last_last (y : list Q) (v : Q) :
  y <> [] -> nth (List.length y - 1) (set_last y v) 0 = v.
Proof.
  intros Hy. unfold set_last.
  assert (Hl : List.length (removelast y) = (List.length y - 1)%nat).
  { rewrite (app_removelast_last 0 Hy) at 2. rewrite length_app. simpl. lia. }
  rewrite app_nth2 by lia. rewrite Hl, Nat.sub_diag. reflexivity.
Qed.

(** The samples of [np.linspace] for two points or more. *)
Lemma np_linspace_samples (start stop : Q) (num : Z) :
  (2 <= num)%Z ->
  exists l : list Q,
    np_linspace start stop num = Ok l
    /\ List.length l = Z.to_nat num
    /\ forall i : nat,
         (i < Z.to_nat num)%nat ->
         nth i l 0
         == start + inject_Z (Z.of_nat i) * (stop - start) / inject_Z (num - 1).
Proof.
  intros Hn. unfold np_linspace.
  assert (E1 : (num <? 0)%Z = false) by (apply Z.ltb_ge; lia).
  assert (E2 : (0 <? num - 1)%Z = true) by (apply Z.ltb_lt; lia).
  assert (E3 : (1 <? num)%Z = true) by (apply Z.ltb_lt; lia).
  rewrite E1, E2, E3.
  set (N := Z.to_nat num).
  assert (HN : (2 <= N)%nat) by (unfold N; lia).
  assert (Hd : ~ inject_Z (num - 1) == 0) by (apply inject_Z_neq0; lia).
  set (step := (stop - start) / inject_Z (num - 1)).
  set (y := map (fun v => v + start)
                (if Qeq_bool step 0
                 then map (fun v => v / inject_Z (num - 1) * (stop - start))
                          (map (fun i => inject_Z (Z.of_nat i)) (seq 0 N))
                 else map (fun v => v * step)
                          (map (fun i => inject_Z (Z.of_nat i)) (seq 0 N)))).
  assert (Hlen : List.length y = N).
  { unfold y. destruct (Qeq_bool step 0); now rewrite !length_map, length_seq. }
  assert (Hy : y <> []).
  { intros E. rewrite E in Hlen. simpl in Hlen. lia. }
  assert (Hnth : forall i, (i < N)%nat ->
             nth i y 0 == start + inject_Z (Z.of_nat i) * (stop - start) / inject_Z (num - 1)).
  { intros i Hi. unfold y. destruct (Qeq_bool step 0); rewrite !map_map;
      rewrite nth_map_seq by exact Hi; unfold step; field; exact Hd. }
  exists (set_last y stop). split; [reflexivity|].
  split; [now rewrite set_last_length|].
  intros i Hi. destruct (Nat.eq_dec i (N - 1)) as [->|Hne].
  - rewrite <- Hlen at 1. rewrite set_last_last by exact Hy.
    replace (Z.of_nat (N - 1)) with (num - 1)%Z by (unfold N; lia).
    field. exact Hd.
  - rewrite set_last_nth by lia. apply Hnth. exact Hi.
Qed.

Lemma nth_map_lt {A B : Type} (f : A -> B) (l : list A) (d : A) (d' : B) (i : nat) :
  (i < List.length l)%nat -> nth i (map f l) d' = f (nth i l d).
Proof.
  intros Hi. rewrite (nth_indep _ d' (f d)) by now rewrite length_map.
  apply map_nth.
Qed.

Lemma combine_map_right {A B : Type} (f : A -> B) (l : list A) :
  combine l (map f l) = map (fun a => (a, f a)) l.
Proof.
  induction l as [|a l IH]; simpl; [reflexivity | now rewrite IH].
Qed.

(** The three matrices built from two axes. *)
Lemma mesh_of_axes (x y : list Q) :
  let X := fst (np_meshgrid x y) in
  let Y := snd (np_meshgrid x y) in
  let Z := np_surface_function_2d X Y in
  List.length X = List.length y
  /\ List.length Y = List.length y
  /\ List.length Z = List.length y
  /\ forall i : nat,
       (i < List.length y)%nat ->
       List.length (nth i X []) = List.length x
       /\ List.length (nth i Y []) = List.length x
       /\ List.length (nth i Z []) = List.length x
       /\ forall j : nat,
            (j < List.length x)%nat ->
            entry X i j = nth j x 0
            /\ entry Y i j = nth i y 0
            /\ entry Z i j = nth j x 0 ^ 2 + nth i y 0 ^ 2.
Proof.
  unfold np_meshgrid, np_surface_function_2d. cbn [fst snd].
  rewrite combine_map_same, map_map. cbn [fst snd].
  rewrite !length_map.
  split; [reflexivity|]. split; [reflexivity|]. split; [reflexivity|].
  intros i Hi. unfold entry.
  rewrite !(nth_map_lt _ y 0 [] Hi). unfold np_surface_function.
  rewrite combine_map_right, map_map, !length_map. cbn [fst snd].
  split; [reflexivity|]. split; [reflexivity|]. split; [reflexivity|].
  intros j Hj. rewrite !(nth_map_lt _ x 0 0 Hj).
  repeat split; reflexivity.
Qed.

Lemma visualize_surface_mesh_formula :
  exists X Y Z : list (list Q),
    visualize_surface_mesh = Ok (X, Y, Z)
    /\ List.length X = 50%nat /\ List.length Y = 50%nat /\ List.length Z = 50%nat
    /\ forall i : nat,
         (i < 50)%nat ->
         List.length (nth i X []) = 50%nat
         /\ List.length (nth i Y []) = 50%nat
         /\ List.length (nth i Z []) = 50%nat
         /\ forall j : nat,
              (j < 50)%nat ->
              entry X i j == inject_Z (Z.of_nat j) / 49
              /\ entry Y i j == inject_Z (Z.of_nat i) / 49
              /\ entry Z i j
                 == (inject_Z (Z.of_nat j) / 49) ^ 2 + (inject_Z (Z.of_nat i) / 49) ^ 2.
Proof.
  assert (H50 : (2 <= 50)%Z) by lia.
  destruct (np_linspace_samples 0 1 H50) as [l [El [Hlen Hnth]]].
  change (Z.to_nat 50) with 50%nat in Hlen, Hnth.
  unfold visualize_surface_mesh. rewrite El. cbn [bind].
  destruct (mesh_of_axes l l) as [LX [LY [LZ Hrows]]].
  rewrite Hlen in LX, LY, LZ, Hrows.
  do 3 eexists. split; [reflexivity|].
  split; [exact LX|]. split; [exact LY|]. split; [exact LZ|].
  intros i Hi. destruct (Hrows i Hi) as [RX [RY [RZ Hent]]].
  split; [exact RX|]. split; [exact RY|]. split; [exact RZ|].
  intros j Hj. destruct (Hent j Hj) as [EX [EY EZ]].
  assert (Hi' := Hnth i Hi). assert (Hj' := Hnth j Hj).
  change (inject_Z (50 - 1)) with (inject_Z 49) in Hi', Hj'.
  rewrite EX, EY, EZ, Hi', Hj'.
  repeat split; field.
Qed.

(** X10. The mesh that [visualize_surface] hands to the plots: three
    50×50 matrices with [X[i][j] = j/49], [Y[i][j] = i/49] and
    [Z[i][j] = X[i][j]² + Y[i][j]²], so that the axes run from 0 to 1 in 49
    equal steps (exact arithmetic). *)
Theorem visualize_surface_mesh_entries :
  exists X Y Z : list (list Q),
    visualize_surface_mesh = Ok (X, Y, Z)
    /\ List.length X = 50%nat /\ List.length Y = 50%nat /\ List.length Z = 50%nat
    /\ forall i j : nat,
         (i < 50)%nat -> (j < 50)%nat ->
         List.length (nth i X []) = 50%nat
         /\ List.length (nth i Y []) = 50%nat
         /\ List.length (nth i Z []) = 50%nat
         /\ entry X i j == inject_Z (Z.of_nat j) / 49
         /\ entry Y i j == inject_Z (Z.of_nat i) / 49
         /\ entry Z i j == entry X i j * entry X i j + entry Y i j * entry Y i j.
Proof.
  destruct visualize_surface_mesh_formula as [X [Y [Z [E [LX [LY [LZ Hrows]]]]]]].
  exists X, Y, Z. split; [exact E|].
  split; [exact LX|]. split; [exact LY|]. split; [exact LZ|].
  intros i j Hi Hj. destruct (Hrows i Hi) as [RX [RY [RZ Hent]]].
  destruct (Hent j Hj) as [EX [EY EZ]].
  repeat split; try assumption.
  rewrite EZ, EX, EY. ring.
Qed.

Lemma visualize_surface_mesh_entries_at_corner :
  exists X Y Z : list (list Q),
    visualize_surface_mesh = Ok (X, Y, Z)
    /\ (49 < 50)%nat
    /\ entry X 49 49 == inject_Z (Z.of_nat 49) / 49
    /\ entry Y 49 49 == inject_Z (Z.of_nat 49) / 49
    /\ entry Z 49 49 == entry X 49 49 * entry X 49 49 + entry Y 49 49 * entry Y 49 49.
Proof.
  destruct visualize_surface_mesh_entries as [X [Y [Z [E [_ [_ [_ H]]]]]]].
  exists X, Y, Z. split; [exact E|].
  assert (H49 : (49 < 50)%nat) by lia.
  split; [exact H49|].
  destruct (H 49%nat 49%nat H49 H49) as [_ [_ [_ [EX [EY EZ]]]]].
  repeat split; assumption.
Defined.

(** X11. Every height of the mesh lies in [0, 2]; the lowest is 0 at
    the corner (0, 0) and the highest is 2 at the corner (1, 1); the
    matrix of heights is symmetric and the heights do not decrease along
    a row or down a column (exact arithmetic). *)
Theorem visualize_surface_mesh_heights :
  exists X Y Z : list (list Q),
    visualize_surface_mesh = Ok (X, Y, Z)
    /\ entry Z 0 0 == 0
    /\ entry Z 49 49 == 2
    /\ forall i j i' j' : nat,
         (i <= i')%nat -> (i' < 50)%nat -> (j <= j')%nat -> (j' < 50)%nat ->
         0 <= entry Z i j
         /\ entry Z i j <= entry Z i' j'
         /\ entry Z i' j' <= 2
         /\ entry Z i j == entry Z j i.
Proof.
  destruct visualize_surface_mesh_formula as [X [Y [Z [E [_ [_ [_ Hrows]]]]]]].
  exists X, Y, Z. split; [exact E|].
  assert (HZ : forall i j, (i < 50)%nat -> (j < 50)%nat ->
             entry Z i j
             == (inject_Z (Z.of_nat j) / 49) ^ 2 + (inject_Z (Z.of_nat i) / 49) ^ 2).
  { intros i j Hi Hj. destruct (Hrows i Hi) as [_ [_ [_ Hent]]].
    now destruct (Hent j Hj) as [_ [_ EZ]]. }
  split; [rewrite HZ by lia; reflexivity|].
  split; [rewrite HZ by lia; reflexivity|].
  intros i j i' j' Hi Hi' Hj Hj'.
  rewrite (HZ i j), (HZ i' j'), (HZ j i) by lia.
  assert (B : forall k : nat, (k < 50)%nat ->
             0 <= inject_Z (Z.of_nat k) / 49 /\ inject_Z (Z.of_nat k) / 49 <= 1).
  { intros k Hk. split.
    - apply Qle_shift_div_l; [reflexivity|]. rewrite Qmult_0_l.
      unfold Qle. simpl. lia.
    - apply Qle_shift_div_r; [reflexivity|]. rewrite Qmult_1_l.
      unfold Qle. simpl. lia. }
  assert (M : forall k k' : nat, (k <= k')%nat ->
             inject_Z (Z.of_nat k) / 49 <= inject_Z (Z.of_nat k') / 49).
  { intros k k' Hk. apply Qmult_le_compat_r; [|discriminate].
    unfold Qle. simpl. lia. }
  destruct (B i) as [Bi0 Bi1]; [lia|]. destruct (B j) as [Bj0 Bj1]; [lia|].
  destruct (B i' Hi') as [Bi0' Bi1']. destruct (B j' Hj') as [Bj0' Bj1'].
  assert (Mi := M i i' Hi). assert (Mj := M j j' Hj).
  repeat split; nra.
Qed.

Lemma visualize_surface_mesh_heights_inner :
  exists X Y Z : list (list Q),
    visualize_surface_mesh = Ok (X, Y, Z)
    /\ (3 <= 7)%nat /\ (7 < 50)%nat /\ (5 <= 5)%nat /\ (5 < 50)%nat
    /\ 0 <= entry Z 3 5
    /\ entry Z 3 5 <= entry Z 7 5
    /\ entry Z 7 5 <= 2
    /\ entry Z 3 5 == entry Z 5 3.
Proof.
  destruct visualize_surface_mesh_heights as [X [Y [Z [E [_ [_ H]]]]]].
  exists X, Y, Z. split; [exact E|].
  assert (H1 : (3 <= 7)%nat) by lia. assert (H2 : (7 < 50)%nat) by lia.
  assert (H3 : (5 <= 5)%nat) by lia. assert (H4 : (5 < 50)%nat) by lia.
  repeat split; try assumption; apply (H 3%nat 5%nat 7%nat 5%nat H1 H2 H3 H4).
Defined.

(** ** The weekly temperatures, for any series *)

Lemma fold_max_spec (l : list Z) (a : Z) :
  (a <= fold_left Z.max l a)%Z
  /\ (forall t, In t l -> (t <= fold_left Z.max l a)%Z)
  /\ (fold_left Z.max l a = a \/ In (fold_left Z.max l a) l).
Proof.
  revert a; induction l as [|b l IH]; intros a; cbn [fold_left].
  - split; [lia|]. split; [intros t []|now left].
  - destruct (IH (Z.max a b)) as [H1 [H2 H3]].
    split; [lia|]. split.
    + intros t [<-|Ht]; [lia | now apply H2].
    + destruct H3 as [H3|H3]; [|right; now right].
      rewrite H3. destruct (Z.max_spec a b) as [[_ ->]|[_ ->]];
        [right; now left | now left].
Qed.

Lemma fold_min_spec (l : list Z) (a : Z) :
  (fold_left Z.min l a <= a)%Z
  /\ (forall t, In t l -> (fold_left Z.min l a <= t)%Z)
  /\ (fold_left Z.min l a = a \/ In (fold_left Z.min l a) l).
Proof.
  revert a; induction l as [|b l IH]; intros a; cbn [fold_left].
  - split; [lia|]. split; [intros t []|now left].
  - destruct (IH (Z.min a b)) as [H1 [H2 H3]].
    split; [lia|]. split.
    + intros t [<-|Ht]; [lia | now apply H2].
    + destruct H3 as [H3|H3]; [|right; now right].
      rewrite H3. destruct (Z.min_spec a b) as [[_ ->]|[_ ->]];
        [now left | right; now left].
Qed.

(** [max] and [min] of a nonempty list: a bound that is attained. *)
Lemma py_max_spec (l : list Z) :
  l <> [] ->
  exists hi, py_max l = Ok hi /\ In hi l /\ forall t, In t l -> (t <= hi)%Z.
Proof.
  destruct l as [|a l]; [contradiction|]. intros _.
  destruct (fold_max_spec l a) as [H1 [H2 H3]].
  exists (fold_left Z.max l a). split; [reflexivity|]. split.
  - destruct H3 as [->|H3]; [now left | now right].
  - intros t [<-|Ht]; [exact H1 | now apply H2].
Qed.

Lemma py_min_spec (l : list Z) :
  l <> [] ->
  exists lo, py_min l = Ok lo /\ In lo l /\ forall t, In t l -> (lo <= t)%Z.
Proof.
  destruct l as [|a l]; [contradiction|]. intros _.
  destruct (fold_min_spec l a) as [H1 [H2 H3]].
  exists (fold_left Z.min l a). split; [reflexivity|]. split.
  - destruct H3 as [->|H3]; [now left | now right].
  - intros t [<-|Ht]; [exact H1 | now apply H2].
Qed.

Lemma in_combine_seq {A : Type} (l : list A) (d : A) (s k : nat) (t : A) :
  In (k, t) (combine (seq s (List.length l)) l) ->
  (s <= k < s + List.length l)%nat /\ nth (k - s) l d = t.
Proof.
  revert s; induction l as [|a l IH]; intros s Hin; [destruct Hin|].
  cbn [List.length seq combine] in Hin. destruct Hin as [E|Hin].
  - injection E as <- <-. rewrite Nat.sub_diag. cbn [List.length]. split; [lia | reflexivity].
  - destruct (IH _ Hin) as [Hk Ht]. cbn [List.length]. split; [lia|].
    replace (k - s)%nat with (S (k - S s)) by lia. exact Ht.
Qed.

Lemma in_enumerate {A : Type} (l : list A) (d : A) (i : Z) (t : A) :
  In (i, t) (enumerate l) ->
  (0 <= i < Z.of_nat (List.length l))%Z /\ nth (Z.to_nat i) l d = t.
Proof.
  unfold enumerate, range. rewrite Nat2Z.id. intros Hin.
  assert (Hk : exists k, i = Z.of_nat k /\ In (k, t) (combine (seq 0 (List.length l)) l)).
  { revert Hin. generalize (seq 0 (List.length l)). intros ks. revert l.
    induction ks as [|k ks IH]; intros l Hin; [destruct Hin|].
    destruct l as [|a l]; [destruct Hin|].
    cbn [map combine] in Hin. destruct Hin as [E|Hin].
    - injection E as <- <-. exists k. split; [reflexivity | now left].
    - destruct (IH _ Hin) as [k' [Ek Hk]]. exists k'. split; [exact Ek | now right]. }
  destruct Hk as [k [-> Hk]]. apply (in_combine_seq l d) in Hk.
  rewrite Nat.sub_0_r in Hk. rewrite Nat2Z.id. split; [lia | tauto].
Qed.

(** X12. For any nonempty series, the y-limits given to the plot are two
    degrees below the lowest and two above the highest reading, so every
    annotated point [(i, temp)] lies at least two degrees inside them; the
    annotations follow the series (the i-th one sits at the i-th reading
    and shows it, there is one per reading). An empty series raises
    [ValueError] at [min]. *)
Theorem ylim_contains_annotations (l : list Z) :
  ylim [] = Raise ValueError
  /\ List.length (annotations l) = List.length l
  /\ (l <> [] ->
      exists lo hi : Z,
        ylim l = Ok (lo, hi)
        /\ In (lo + 2)%Z l /\ In (hi - 2)%Z l
        /\ forall (label : string) (i t : Z),
             In (label, (i, t)) (annotations l) ->
             (lo + 2 <= t <= hi - 2)%Z
             /\ (0 <= i < Z.of_nat (List.length l))%Z
             /\ nth (Z.to_nat i) l 0%Z = t
             /\ label = (str_int t ++ "°C")%string).
Proof.
  split; [reflexivity|]. split.
  - unfold annotations, enumerate.
    rewrite length_map, length_combine, range_length, Nat2Z.id. apply Nat.min_id.
  - intros Hl.
    destruct (py_min_spec Hl) as [lo [Elo [Ilo Blo]]].
    destruct (py_max_spec Hl) as [hi [Ehi [Ihi Bhi]]].
    exists (lo - 2)%Z, (hi + 2)%Z. unfold ylim. rewrite Elo, Ehi. cbn [bind].
    split; [reflexivity|].
    split; [now replace (lo - 2 + 2)%Z with lo by lia|].
    split; [now replace (hi + 2 - 2)%Z with hi by lia|].
    intros label i t Hin. unfold annotations in Hin.
    apply in_map_iff in Hin. destruct Hin as [[i' t'] [E Hin]].
    cbn [fst snd] in E. injection E as <- <- <-.
    destruct (in_enumerate l 0%Z _ _ Hin) as [Hi Ht].
    assert (Ht' : In t' l).
    { rewrite <- Ht. apply nth_In. lia. }
    specialize (Blo _ Ht'). specialize (Bhi _ Ht').
    split; [lia|]. split; [lia|]. split; [exact Ht | reflexivity].
Qed.

Lemma ylim_contains_annotations_week :
  temperatures <> []
  /\ exists lo hi : Z,
       ylim temperatures = Ok (lo, hi)
       /\ In (lo + 2)%Z temperatures /\ In (hi - 2)%Z temperatures
       /\ forall (label : string) (i t : Z),
            In (label, (i, t)) (annotations temperatures) ->
            (lo + 2 <= t <= hi - 2)%Z
            /\ (0 <= i < Z.of_nat (List.length temperatures))%Z
            /\ nth (Z.to_nat i) temperatures 0%Z = t
            /\ label = (str_int t ++ "°C")%string.
Proof.
  assert (H : temperatures <> []) by discriminate.
  split; [exact H|].
  exact (proj2 (proj2 (ylim_contains_annotations temperatures)) H).
Defined.

Lemma py_sum_acc (l : list Z) (a : Z) : fold_left Z.add l a = (a + py_sum l)%Z.
Proof.
  unfold py_sum. revert a; induction l as [|b l IH]; intros a; cbn [fold_left].
  - lia.
  - rewrite IH, (IH (0 + b)%Z). lia.
Qed.

Lemma py_sum_bounds (l : list Z) (lo hi : Z) :
  (forall t, In t l -> (lo <= t <= hi)%Z) ->
  (Z.of_nat (List.length l) * lo <= py_sum l <= Z.of_nat (List.length l) * hi)%Z.
Proof.
  induction l as [|a l IH]; intros B.
  - cbn. lia.
  - assert (Ha := B a (or_introl eq_refl)).
    assert (IH' : (Z.of_nat (List.length l) * lo <= py_sum l
                   <= Z.of_nat (List.length l) * hi)%Z)
      by (apply IH; intros t Ht; apply B; now right).
    unfold py_sum at 1 2. cbn [fold_left List.length].
    rewrite py_sum_acc. rewrite Nat2Z.inj_succ. lia.
Qed.

(** X13. For any nonempty series the average computed by the summary,
    [sum/len], lies between the lowest and the highest reading, and
    multiplied by the number of readings it gives their sum back; for an
    empty series the division raises [ZeroDivisionError], in exact
    arithmetic and in binary64. *)
Theorem average_between_extremes (l : list Z) :
  average (F := Q) [] = Raise ZeroDivisionError
  /\ average (F := spec_float) [] = Raise ZeroDivisionError
  /\ (l <> [] ->
      exists (a : Q) (lo hi : Z),
        average l = Ok a
        /\ py_min l = Ok lo /\ py_max l = Ok hi
        /\ inject_Z lo <= a /\ a <= inject_Z hi
        /\ a * inject_Z (py_len l) == inject_Z (py_sum l)).
Proof.
  split; [reflexivity|]. split; [reflexivity|]. intros Hl.
  destruct (py_min_spec Hl) as [lo [Elo [Ilo Blo]]].
  destruct (py_max_spec Hl) as [hi [Ehi [Ihi Bhi]]].
  assert (Hlen : (0 < py_len l)%Z).
  { unfold py_len. destruct l; [contradiction | cbn [List.length]; lia]. }
  assert (Hq : 0 < inject_Z (py_len l)) by (unfold Qlt; simpl; lia).
  assert (Hq0 : ~ inject_Z (py_len l) == 0).
  { intros E. rewrite E in Hq. exact (Qlt_irrefl _ Hq). }
  exists (inject_Z (py_sum l) / inject_Z (py_len l)), lo, hi.
  split.
  - unfold average, int_truediv.
    assert (E : (py_len l =? 0)%Z = false) by (apply Z.eqb_neq; lia).
    rewrite E. cbn [float_of_int fdiv PyFloat_Q bind].
    rewrite inject_Z_nonzero by lia. reflexivity.
  - split; [exact Elo|]. split; [exact Ehi|].
    assert (B : forall t, In t l -> (lo <= t <= hi)%Z)
      by (intros t Ht; split; [now apply Blo | now apply Bhi]).
    destruct (py_sum_bounds l B) as [S1 S2]. fold (py_len l) in S1, S2.
    split; [|split].
    + apply Qle_shift_div_l; [exact Hq|].
      rewrite <- inject_Z_mult. rewrite <- Zle_Qle. lia.
    + apply Qle_shift_div_r; [exact Hq|].
      rewrite <- inject_Z_mult. rewrite <- Zle_Qle. lia.
    + field. exact Hq0.
Qed.

Lemma average_between_extremes_week :
  temperatures <> []
  /\ exists (a : Q) (lo hi : Z),
       average temperatures = Ok a
       /\ py_min temperatures = Ok lo /\ py_max temperatures = Ok hi
       /\ inject_Z lo <= a /\ a <= inject_Z hi
       /\ a * inject_Z (py_len temperatures) == inject_Z (py_sum temperatures).
Proof.
  assert (H : temperatures <> []) by discriminate.
  split; [exact H|].
  exact (proj2 (proj2 (average_between_extremes temperatures)) H).
Defined.

(** X14. For any nonempty series the range printed by the summary is
    the largest difference between two readings: it is attained by two of
    them, no two readings differ by more, it is never negative and it is
    zero exactly when all readings are equal. An empty series raises
    [ValueError]. *)
Theorem temperature_range_spread (l : list Z) :
  temperature_range [] = Raise ValueError
  /\ (l <> [] ->
      exists r : Z,
        temperature_range l = Ok r
        /\ (0 <= r)%Z
        /\ (exists s t, In s l /\ In t l /\ (s - t)%Z = r)
        /\ (forall s t, In s l -> In t l -> (s - t <= r)%Z)
        /\ (r = 0%Z <-> forall s t, In s l -> In t l -> s = t)).
Proof.
  split; [reflexivity|]. intros Hl.
  destruct (py_min_spec Hl) as [lo [Elo [Ilo Blo]]].
  destruct (py_max_spec Hl) as [hi [Ehi [Ihi Bhi]]].
  exists (hi - lo)%Z. unfold temperature_range. rewrite Ehi, Elo. cbn [bind].
  split; [reflexivity|].
  split; [specialize (Blo _ Ihi); lia|].
  split; [exists hi, lo; now repeat split|].
  split.
  - intros s t Hs Ht. specialize (Bhi _ Hs). specialize (Blo _ Ht). lia.
  - split.
    + intros E s t Hs Ht.
      assert (H1 := Bhi _ Hs). assert (H2 := Blo _ Hs).
      assert (H3 := Bhi _ Ht). assert (H4 := Blo _ Ht). lia.
    + intros E. rewrite (E hi lo Ihi Ilo). lia.
Qed.

Lemma temperature_range_spread_week :
  temperatures <> []
  /\ exists r : Z,
       temperature_range temperatures = Ok r
       /\ (0 <= r)%Z
       /\ (exists s t, In s temperatures /\ In t temperatures /\ (s - t)%Z = r)
       /\ (forall s t, In s temperatures -> In t temperatures -> (s - t <= r)%Z)
       /\ (r = 0%Z <-> forall s t, In s temperatures -> In t temperatures -> s = t).
Proof.
  assert (H : temperatures <> []) by discriminate.
  split; [exact H|].
  exact (proj2 (temperature_range_spread temperatures) H).
Defined.

(** ** The one-decimal format *)

Lemma round_half_even_near (q : Q) :
  Qabs (inject_Z (round_half_even q) - q) <= 1 # 2.
Proof.
  destruct q as [n d]. apply Qabs_Qle_condition.
  unfold round_half_even. cbn [Qnum Qden].
  assert (Hdm := Z.div_mod n (Zpos d) ltac:(lia)).
  assert (Hr := Z.mod_pos_bound n (Zpos d) ltac:(lia)).
  set (fl := (n / Zpos d)%Z) in *. set (r := (n mod Zpos d)%Z) in *.
  clearbody fl r. subst n.
  destruct (2 * r ?= Zpos d)%Z eqn:C.
  - apply Z.compare_eq in C.
    destruct (Z.even fl); unfold Qle, Qminus, Qplus, Qopp, inject_Z;
      cbn [Qnum Qden]; rewrite Pos.mul_1_l; split; nia.
  - change (2 * r < Zpos d)%Z in C.
    unfold Qle, Qminus, Qplus, Qopp, inject_Z; cbn [Qnum Qden];
      rewrite Pos.mul_1_l; split; nia.
  - apply Z.compare_gt_iff in C.
    unfold Qle, Qminus, Qplus, Qopp, inject_Z; cbn [Qnum Qden];
      rewrite Pos.mul_1_l; split; nia.
Qed.

Lemma round_half_even_nonneg (q : Q) : 0 <= q -> (0 <= round_half_even q)%Z.
Proof.
  destruct q as [n d]. unfold Qle. cbn [Qnum Qden]. intros Hq.
  assert (Hn : (0 <= n)%Z) by lia.
  unfold round_half_even. cbn [Qnum Qden].
  assert (Hfl : (0 <= n / Zpos d)%Z) by (apply Z.div_pos; lia).
  destruct (2 * (n mod Zpos d) ?= Zpos d)%Z; try lia.
  destruct (Z.even (n / Zpos d)); lia.
Qed.

Lemma str_int_digit (d : Z) : (0 <= d <= 9)%Z -> String.length (str_int d) = 1%nat.
Proof.
  intros Hd.
  assert (E : (d = 0 \/ d = 1 \/ d = 2 \/ d = 3 \/ d = 4 \/ d = 5 \/ d = 6
               \/ d = 7 \/ d = 8 \/ d = 9)%Z) by lia.
  repeat (destruct E as [->|E]; [reflexivity|]). now subst d.
Qed.

Lemma tenth_bound (a b : Q) :
  - (1 # 2) <= a - b * 10 -> a - b * 10 <= 1 # 2 ->
  - (1 # 20) <= a * (1 # 10) - b /\ a * (1 # 10) - b <= 1 # 20.
Proof. intros H1 H2. split; lra. Qed.

(** X15. What the [.1f] format prints for a number of exact arithmetic:
    the sign, an integer part and exactly one decimal digit, and the
    number shown differs from the magnitude printed by at most 0.05. *)
Theorem format_1f_accuracy (x : Q) :
  exists ip dg : Z,
    (0 <= ip)%Z /\ (0 <= dg <= 9)%Z
    /\ format_1f x
       = ((if Qle_bool 0 x then "" else "-") ++ str_int ip ++ "." ++ str_int dg)%string
    /\ String.length (str_int dg) = 1%nat
    /\ Qabs (inject_Z ip + inject_Z dg / 10 - Qabs x) <= 1 # 20.
Proof.
  set (t := round_half_even (Qabs x * 10)).
  assert (Hq : 0 <= Qabs x * 10).
  { apply Qmult_le_0_compat; [apply Qabs_nonneg | discriminate]. }
  assert (Ht : (0 <= t)%Z) by (apply round_half_even_nonneg; exact Hq).
  assert (Hd : (0 <= t mod 10 < 10)%Z) by (apply Z.mod_pos_bound; lia).
  exists (t / 10)%Z, (t mod 10)%Z.
  split; [apply Z.div_pos; lia|]. split; [lia|]. split.
  - unfold format_1f, format_1f_value. cbn [classify PyFloat_Q]. fold t.
    destruct (Qle_bool 0 x); reflexivity.
  - split; [apply str_int_digit; lia|].
    assert (Hn := round_half_even_near (Qabs x * 10)). fold t in Hn.
    assert (Et : inject_Z (t / 10) + inject_Z (t mod 10) / 10 == inject_Z t / 10).
    { rewrite (Z.div_mod t 10) at 3 by lia.
      rewrite inject_Z_plus, inject_Z_mult. field. }
    rewrite Et.
    apply Qabs_Qle_condition in Hn. destruct Hn as [H1 H2].
    apply Qabs_Qle_condition. unfold Qdiv. change (/ 10) with (1 # 10).
    now apply tenth_bound.
Qed.

(** ** The integrand in binary64 *)

Section Signs.
Local Open Scope Z_scope.

Lemma shr_fexp_nonneg (m e : Z) (l : location) :
  0 <= m -> 0 <= shr_m (fst (shr_fexp B64.prec B64.emax m e l)).
Proof.
  intros Hm. unfold shr_fexp, shr.
  destruct (fexp B64.prec B64.emax (Zdigits2 m + e) - e) as [|n|n]; cbn [fst].
  - now rewrite shr_record_of_loc_m.
  - rewrite iter_shr_1_m by now rewrite shr_record_of_loc_m.
    rewrite shr_record_of_loc_m. apply Z.div_pos; [exact Hm|].
    apply Z.pow_pos_nonneg; lia.
  - now rewrite shr_record_of_loc_m.
Qed.

Lemma round_nearest_even_nonneg (m : Z) (l : location) :
  0 <= m -> 0 <= round_nearest_even m l.
Proof.
  intros Hm. destruct l as [|[ | | ]]; cbn [round_nearest_even]; try lia.
  destruct (Z.even m); lia.
Qed.

(** Rounding keeps the sign it is given and never produces NaN. *)
Lemma binary_round_aux_sign (s : bool) (m e : Z) (l : location) :
  0 <= m -> has_sign s (binary_round_aux B64.prec B64.emax s m e l).
Proof.
  intros Hm. unfold binary_round_aux.
  assert (H1 := shr_fexp_nonneg e l Hm).
  destruct (shr_fexp B64.prec B64.emax m e l) as [mrs' e']. cbn [fst] in H1.
  assert (Hr := round_nearest_even_nonneg (loc_of_shr_record mrs') H1).
  assert (H2 := shr_fexp_nonneg e' loc_Exact Hr).
  destruct (shr_fexp B64.prec B64.emax _ e' loc_Exact) as [mrs'' e''].
  cbn [fst] in H2.
  destruct (shr_m mrs'') as [|q|q]; try lia; [reflexivity|].
  destruct (e'' <=? B64.emax - B64.prec); reflexivity.
Qed.

Lemma binary_round_sign (s : bool) (p : positive) (e : Z) :
  has_sign s (binary_round B64.prec B64.emax s p e).
Proof.
  unfold binary_round.
  destruct (shl_align p e _) as [mz ez]. apply binary_round_aux_sign. lia.
Qed.

Lemma SFmul_square_sign (x : spec_float) :
  is_nan x = false -> has_sign false (SFmul B64.prec B64.emax x x).
Proof.
  destruct x as [s|s| |s m e]; cbn [is_nan SFmul has_sign]; try discriminate;
    intros _; try apply xorb_nilpotent.
  rewrite xorb_nilpotent. apply binary_round_aux_sign. lia.
Qed.

Lemma SFadd_positive_sign (a b : spec_float) :
  has_sign false a -> has_sign false b ->
  has_sign false (SFadd B64.prec B64.emax a b).
Proof.
  destruct a as [sa|sa| |sa ma ea]; destruct b as [sb|sb| |sb mb eb];
    cbn [has_sign]; intros Ha Hb; try contradiction; subst;
    cbn [SFadd has_sign]; try reflexivity.
  cbn [cond_Zopp]. rewrite <- Pos2Z.inj_add. cbn [binary_normalize].
  apply binary_round_sign.
Qed.

End Signs.

(** X16. In binary64, [surface_function] on two numbers (anything but
    NaN) either raises [OverflowError], when a square is out of range, or
    returns a value that is neither NaN nor negative nor -0.0. The sum of
    two finite squares may still overflow, silently, to +inf. *)
Theorem surface_function_B64_sign (x y : spec_float) :
  (is_nan x = false -> is_nan y = false ->
   surface_function x y = Raise OverflowError
   \/ exists z : spec_float, surface_function x y = Ok z /\ has_sign false z)
  /\ surface_function (S754_finite false 6755399441055744 459)
                      (S754_finite false 6755399441055744 459)
     = Ok (S754_infinity false).
Proof.
  split; [|vm_compute; reflexivity].
  intros Hx Hy. unfold surface_function. cbn [fsquare fadd PyFloat_B64].
  unfold B64.square.
  assert (Sx := SFmul_square_sign x Hx). assert (Sy := SFmul_square_sign y Hy).
  destruct (B64.is_infinity (SFmul B64.prec B64.emax x x) && negb (B64.is_infinity x));
    cbn [bind]; [now left|].
  destruct (B64.is_infinity (SFmul B64.prec B64.emax y y) && negb (B64.is_infinity y));
    cbn [bind]; [now left|].
  right. eexists. split; [reflexivity|]. now apply SFadd_positive_sign.
Qed.

Lemma surface_function_B64_sign_at_half :
  is_nan (half : spec_float) = false
  /\ (surface_function (half : spec_float) half = Raise OverflowError
      \/ exists z : spec_float,
           surface_function (half : spec_float) half = Ok z /\ has_sign false z).
Proof.
  split; [reflexivity|].
  apply (proj1 (surface_function_B64_sign half half)); reflexivity.
Defined.

(** ** Binary64 against exact arithmetic *)

Ltac b64_gap Hn :=
  unfold rounding_gap; rewrite Hn;
  eexists; split; [vm_compute; reflexivity | vm_compute; reflexivity].

(** X17. On the five grid sizes of [main] the rounding of binary64
    moves the Riemann sum by less than 2^-48 from its exact value
    2/3 - 1/(6 n²): the two readings of the loops agree to fourteen
    decimal places. *)
Theorem riemann_B64_close_to_exact :
  Forall (fun n => exists gap : Q, rounding_gap n = Some gap /\ gap < 1 # (2 ^ 48))
         grid_sizes.
Proof.
  unfold grid_sizes. repeat apply Forall_cons; [ | | | | | apply Forall_nil ].
  - b64_gap riemann_B64_10.
  - b64_gap riemann_B64_25.
  - b64_gap riemann_B64_50.
  - b64_gap riemann_B64_100.
  - b64_gap riemann_B64_200.
Qed.

Lemma riemann_failures_at_overflow :
  numerical_integration_riemann (F := spec_float) (2 ^ 1024) = Raise OverflowError
  /\ (OverflowError = ZeroDivisionError \/ OverflowError = OverflowError).
Proof.
  split; [vm_compute; reflexivity|].
  apply (proj2 (proj2 (riemann_failures (2 ^ 1024) OverflowError))).
  vm_compute. reflexivity.
Defined.
